(** * stalk_trace.js — a shallow embedding of the Stalker trace script

    The script attaches to one native function, follows the calling thread
    and prints one annotated line per executed instruction of the target
    module.  This development embeds its helpers ([isSafePointer],
    [toHex128], [getRegisterValue], [inspectMemory],
    [formatOperandDetails], [getDiffRegisters]), the rendering callout with
    its loop gate, the [transform] loop and [onLeave], and proves the
    properties stated about them.

    Modelling conventions
    - a [NativePointer] is a [Z] holding an unsigned 64-bit value; pointer
      arithmetic wraps modulo 2^64;
    - a JavaScript number is a [Z] (hit counters, displacements, indices);
    - a JavaScript exception is the [Throw] completion; [try]/[catch] is a
      match on the completion;
    - the plain objects [lastRegs] and [loopCounter] are [gmap string _];
    - [console.log] appends one string to an output list. *)

From Stdlib Require Import ZArith NArith String Ascii List Bool Lia.
From Stdlib Require DecimalString HexadecimalString DecimalPos.
From stdpp Require Import gmap strings.

Open Scope Z_scope.

(** ** Completions: a value, or a thrown exception *)

Inductive completion (A : Type) : Type :=
| Ok (a : A)
| Throw.
Arguments Ok {A} a.
Arguments Throw {A}.

#[global] Instance completion_bind : MBind completion :=
  fun A B (k : A -> completion B) (c : completion A) =>
    match c with
    | Ok a => k a
    | Throw => Throw
    end.

#[global] Instance completion_ret : MRet completion := fun A a => Ok a.

(** ** JavaScript string and number primitives used by the script *)

Module JS.

(** [s.startsWith(p)] *)
Definition startsWith (s p : string) : bool := String.prefix p s.

(** [s.substring(1)] *)
Definition substring1 (s : string) : string :=
  match s with
  | EmptyString => EmptyString
  | String _ r => r
  end.

Fixpoint spaces (n : nat) (c : ascii) : string :=
  match n with
  | O => EmptyString
  | S k => String c (spaces k c)
  end.

(** [s.padEnd(n)] *)
Definition padEnd (s : string) (n : nat) : string :=
  s +:+ spaces (n - String.length s) " ".

(** [s.padStart(n, c)] *)
Definition padStart (s : string) (n : nat) (c : ascii) : string :=
  spaces (n - String.length s) c +:+ s.

(** [`${n}`] for an integral number *)
Definition num_toString (n : Z) : string :=
  DecimalString.NilZero.string_of_int (Z.to_int n).

(** [n.toString(16)] for a non-negative integral number *)
Definition toString16 (n : N) : string :=
  HexadecimalString.NilZero.string_of_uint (N.to_hex_uint n).

(** [xs.join(sep)] *)
Definition join (sep : string) (xs : list string) : string :=
  String.concat sep xs.

(** truthiness of a string: the empty string is falsy *)
Definition truthy_string (s : string) : bool := negb (String.eqb s "").

Definition is_digit (c : ascii) : bool :=
  let n := N_of_ascii c in ((48 <=? n) && (n <=? 57))%N.

Fixpoint take_digits (s : string) : string :=
  match s with
  | EmptyString => EmptyString
  | String c r => if is_digit c then String c (take_digits r) else EmptyString
  end.

(** [s.match(/\d+/)]: the leftmost maximal run of decimal digits, or
    [null] when the string has no digit. *)
Fixpoint match_digits (s : string) : option string :=
  match s with
  | EmptyString => None
  | String c r => if is_digit c then Some (String c (take_digits r))
                  else match_digits r
  end.

Fixpoint parse_digits (s : string) (acc : Z) : Z :=
  match s with
  | EmptyString => acc
  | String c r => parse_digits r (10 * acc + (Z.of_N (N_of_ascii c) - 48))
  end.

(** [parseInt(s)] on a string of decimal digits (the only argument the
    script passes: the text matched by [/\d+/]).  The comparison with 16
    made on the result is the same on the exact integer as on the
    nearest double. *)
Definition parseInt (s : string) : Z := parse_digits s 0.

End JS.

(** ** NativePointer *)

Module NativePointer.

Definition wrap64 (z : Z) : Z := z mod 2 ^ 64.

(** [ptr(n)] *)
Definition ptr (n : Z) : Z := wrap64 n.

(** [p.add(n)] *)
Definition add (p n : Z) : Z := wrap64 (p + n).

(** [p.sub(q)] *)
Definition sub (p q : Z) : Z := wrap64 (p - q).

(** [p.and(m)] *)
Definition and (p m : Z) : Z := Z.land p m.

(** [p.isNull()] *)
Definition isNull (p : Z) : bool := p =? 0.

(** [p.compare(q)]: -1, 0 or 1 *)
Definition compare (p q : Z) : Z :=
  match p ?= q with
  | Lt => -1
  | Eq => 0
  | Gt => 1
  end.

(** [p.toInt32()] *)
Definition toInt32 (p : Z) : Z :=
  let r := p mod 2 ^ 32 in if r <? 2 ^ 31 then r else r - 2 ^ 32.

(** [p.toString()]: [0x] followed by lower-case hexadecimal digits *)
Definition toString (p : Z) : string :=
  "0x" +:+ JS.toString16 (Z.to_N p).

End NativePointer.

(** ** Process memory and the read primitives *)

(** An address is mapped to a byte, or unreadable. *)
Definition Memory : Type := Z -> option Byte.byte.

Fixpoint read_bytes (mem : Memory) (p : Z) (n : nat) : option (list Byte.byte) :=
  match n with
  | O => Some []
  | S k =>
      match mem p, read_bytes mem (p + 1) k with
      | Some b, Some bs => Some (b :: bs)
      | _, _ => None
      end
  end.

(** [p.readByteArray(n)]: throws when any byte of the range is unreadable *)
Definition readByteArray (mem : Memory) (p : Z) (n : nat) : completion (list Byte.byte) :=
  match read_bytes mem p n with
  | Some bs => Ok bs
  | None => Throw
  end.

Fixpoint le_combine (bs : list Byte.byte) : Z :=
  match bs with
  | [] => 0
  | b :: r => Z.of_N (Byte.to_N b) + 256 * le_combine r
  end.

(** [p.readPointer()]: one little-endian 64-bit word *)
Definition readPointer (mem : Memory) (p : Z) : completion Z :=
  match read_bytes mem p 8 with
  | Some bs => Ok (le_combine bs)
  | None => Throw
  end.

Definition is_nul (b : Byte.byte) : bool := (Byte.to_N b =? 0)%N.

Fixpoint until_nul (bs : list Byte.byte) : list Byte.byte :=
  match bs with
  | [] => []
  | b :: r => if is_nul b then [] else b :: until_nul r
  end.

(** [p.readUtf8String(len)]: at most [len] bytes, cut at the first NUL.
    The script calls it only on a run of bytes it has just checked to lie
    in 32..126, where UTF-8 decoding is the identity on bytes. *)
Definition readUtf8String (mem : Memory) (p : Z) (len : nat) : completion string :=
  match read_bytes mem p len with
  | Some bs => Ok (string_of_list_byte (until_nul bs))
  | None => Throw
  end.

(** ** Configuration and colours *)

Record Config := {
  ENABLE_COLOR : bool;
  STR_PEEK_LEN : nat;
  LOOP_THRESHOLD : Z
}.

Definition CONFIG : Config :=
  {| ENABLE_COLOR := true; STR_PEEK_LEN := 32; LOOP_THRESHOLD := 10 |}.

Module C.
Definition esc (code : string) : string :=
  if ENABLE_COLOR CONFIG then String "027" code else "".
Definition RESET := esc "[0m".
Definition RED := esc "[31m".
Definition GREEN := esc "[32m".
Definition YELLOW := esc "[33m".
Definition BLUE := esc "[34m".
Definition MAGENTA := esc "[35m".
Definition CYAN := esc "[36m".
Definition GRAY := esc "[90m".
End C.

(** ** The CPU context, the module-level globals and instructions *)

(** [MyArm64CpuContext] of the C callout; the script reads [x0]..[x28],
    [fp], [lr], [sp], [pc] through the context object and the vector
    registers only through the C callout. *)
Record CpuContext := {
  x : nat -> Z;
  fp : Z;
  lr : Z;
  sp : Z;
  pc : Z;
  v : nat -> nat -> Byte.byte
}.

(** [context[name]]: [None] is [undefined]. *)
Definition context_get (context : CpuContext) (name : string) : option Z :=
  if String.eqb name "pc" then Some (pc context)
  else if String.eqb name "sp" then Some (sp context)
  else if String.eqb name "fp" then Some (fp context)
  else if String.eqb name "lr" then Some (lr context)
  else
    match find (fun n => String.eqb name ("x" +:+ JS.num_toString (Z.of_nat n)))
               (seq 0 29) with
    | Some n => Some (x context n)
    | None => None
    end.

(** The block returned by [Memory.alloc(16 * 16)]: its bytes by offset.
    Only the offsets below [SIMD_BUFFER_SIZE] belong to the block. *)
Definition SimdBuffer : Type := nat -> Byte.byte.

Definition SIMD_BUFFER_SIZE : Z := 16 * 16.

(** The two module-level variables set by the initialisation block. *)
Record Globals := {
  cm : bool;
  simdBuffer : option SimdBuffer
}.

(** The initialisation [try] block: [cm] is assigned first, then
    [simdBuffer]; an exception at either step leaves the later variable
    [null]. *)
Definition init (compiled : bool) (alloc : option SimdBuffer) : Globals :=
  if compiled then {| cm := true; simdBuffer := alloc |}
  else {| cm := false; simdBuffer := None |}.

Inductive JSValue :=
| VPtr (p : Z)
| VUndefined
| VStr (s : string).

(** [`${val}`] *)
Definition to_display (val : JSValue) : string :=
  match val with
  | VPtr p => NativePointer.toString p
  | VUndefined => "undefined"
  | VStr s => s
  end.

Inductive Operand :=
| OpReg (value : string)
| OpMem (base : option string) (disp : Z)
| OpImm (value : Z)
| OpOther.

Record Instruction := {
  address : Z;
  mnemonic : string;
  opStr : string;
  operands : list Operand
}.

Record Module_ := {
  name : string;
  base : Z
}.

(** ** Helper functions of the script *)

(** [isSafePointer(ptrVal)].  The argument is [null]/[undefined] ([None])
    or a [NativePointer].  The operations inside the [try] block do not
    throw on a [NativePointer], so the [catch] branch has no counterpart
    here. *)
Definition isSafePointer (ptrVal : option Z) : bool :=
  match ptrVal with
  | None => false
  | Some p =>
      if NativePointer.isNull p then false
      else if NativePointer.compare p 0x10000 <? 0 then false
      else if negb (NativePointer.toInt32 (NativePointer.and p 7) =? 0) then false
      else true
  end.

(** [ptrToData.readByteArray(16)] for a pointer [simdBuffer.add(off)] into
    the allocated block: a read that leaves the block throws. *)
Definition buffer_read (b : SimdBuffer) (off : Z) (n : nat) : completion (list Byte.byte) :=
  if (0 <=? off) && (off + Z.of_nat n <=? SIMD_BUFFER_SIZE)
  then Ok (map (fun k => b (Z.to_nat off + k)%nat) (seq 0 n))
  else Throw.

Definition byte_hex (b : Byte.byte) : string :=
  JS.padStart (JS.toString16 (Byte.to_N b)) 2 "0".

(** The loop [for (i = n - 1; i >= 0; i--) hex += ...] of [toHex128]. *)
Fixpoint hex_loop (u8 : list Byte.byte) (n : nat) (hex : string) : completion string :=
  match n with
  | O => Ok hex
  | S i =>
      match u8 !! i with
      | Some b => hex_loop u8 i (hex +:+ byte_hex b)
      | None => Throw
      end
  end.

(** [toHex128(simdBuffer.add(off))] *)
Definition toHex128 (b : SimdBuffer) (off : Z) : completion string :=
  u8 ← buffer_read b off 16;
  hex ← hex_loop u8 16 "";
  Ok ("0x" +:+ hex).

Definition SIMD_PREFIXES : list string := ["q"; "d"; "s"; "h"; "b"].

(** [['q','d','s','h','b'].some(p => regName.startsWith(p))] *)
Definition simd_class (regName : string) : bool :=
  existsb (JS.startsWith regName) SIMD_PREFIXES.

(** Rule 3 of [getRegisterValue]: the body of the SIMD branch. *)
Definition simd_rule (g : Globals) (regName : string) : completion JSValue :=
  match simdBuffer g with
  | None => Ok (VStr "(No-CModule)")
  | Some buf =>
      match JS.match_digits regName with
      | None => Ok (VStr "?")
      | Some m =>
          let regIndex := JS.parseInt m in
          if regIndex <? 16 then
            hex ← toHex128 buf (regIndex * 16);
            Ok (VStr hex)
          else Ok (VStr "(SIMD-OOB)")
      end
  end.

(** Rule 2 of [getRegisterValue]: the body of the [w] branch. *)
Definition alias_rule (context : CpuContext) (regName : string) : JSValue :=
  let xRegName := "x" +:+ JS.substring1 regName in
  match context_get context xRegName with
  | Some xv => VPtr (NativePointer.and xv 0xFFFFFFFF)
  | None => VUndefined
  end.

Definition of_field (o : option Z) : JSValue :=
  match o with
  | Some p => VPtr p
  | None => VUndefined
  end.

(** [getRegisterValue(context, regName)] *)
Definition getRegisterValue (g : Globals) (context : CpuContext) (regName : string)
  : completion JSValue :=
  if String.eqb regName "sp" then Ok (VPtr (sp context))
  else if String.eqb regName "wzr" || String.eqb regName "xzr"
  then Ok (VPtr (NativePointer.ptr 0))
  else if JS.startsWith regName "w" then Ok (alias_rule context regName)
  else if simd_class regName then simd_rule g regName
  else Ok (of_field (context_get context regName)).

Definition printable (b : Byte.byte) : bool :=
  let n := Byte.to_N b in negb ((n <? 32)%N || (126 <? n)%N).

(** The scan loop of [inspectMemory]: returns [(isString, len)]. *)
Fixpoint scan (u8 : list Byte.byte) (len : nat) : bool * nat :=
  match u8 with
  | [] => (true, len)
  | b :: r =>
      if is_nul b then (true, len)
      else if negb (printable b) then (false, len)
      else scan r (S len)
  end.

Definition string_note (s : string) : string :=
  C.GREEN +:+ " => " +:+ String "034" (s +:+ String "034" C.RESET).

Definition pointer_note (pointed : Z) : string :=
  C.BLUE +:+ " => *(" +:+ NativePointer.toString pointed +:+ ")" +:+ C.RESET.

(** The first [try] block of [inspectMemory]: [Some s] when it returns
    [s], [None] when control falls out of the block (also by a caught
    exception). *)
Definition inspect_string (mem : Memory) (p : Z) : option string :=
  match readByteArray mem p (STR_PEEK_LEN CONFIG) with
  | Throw => None
  | Ok u8 =>
      let '(isString, len) := scan u8 0 in
      if isString && (2 <? len)%nat then
        match readUtf8String mem p len with
        | Ok s => Some (string_note s)
        | Throw => None
        end
      else None
  end.

(** The second [try] block of [inspectMemory] and the final [return '']. *)
Definition inspect_pointer (mem : Memory) (p : Z) : string :=
  match readPointer mem p with
  | Ok pointed => if isSafePointer (Some pointed) then pointer_note pointed else ""
  | Throw => ""
  end.

(** [inspectMemory(ptrVal)] *)
Definition inspectMemory (mem : Memory) (ptrVal : option Z) : string :=
  if negb (isSafePointer ptrVal) then ""
  else
    match ptrVal with
    | None => ""
    | Some p =>
        match inspect_string mem p with
        | Some s => s
        | None => inspect_pointer mem p
        end
    end.

Definition typeof_string (val : JSValue) : bool :=
  match val with
  | VStr _ => true
  | _ => false
  end.

Definition as_pointer (val : JSValue) : option Z :=
  match val with
  | VPtr p => Some p
  | _ => None
  end.

(** The ['reg'] case of [formatOperandDetails]. *)
Definition format_reg (g : Globals) (mem : Memory) (context : CpuContext)
    (value : string) : completion string :=
  val0 ← getRegisterValue g context value;
  let val := match val0 with VUndefined => VStr "?" | _ => val0 end in
  let extra :=
    if (JS.startsWith value "x" || String.eqb value "sp") && negb (typeof_string val)
    then inspectMemory mem (as_pointer val)
    else "" in
  Ok (C.MAGENTA +:+ value +:+ C.RESET +:+ "=" +:+ to_display val +:+ extra).

Definition base_display (b : option string) : string :=
  match b with
  | Some s => s
  | None => "undefined"
  end.

Definition base_truthy (b : option string) : bool :=
  match b with
  | Some s => JS.truthy_string s
  | None => false
  end.

(** The [try] block of the ['mem'] case: the annotation of the loaded word. *)
Definition mem_content (mem : Memory) (calculatedAddr : Z) : string :=
  match readPointer mem calculatedAddr with
  | Ok loadedVal =>
      (" " +:+ C.BLUE +:+ "[val=" +:+ NativePointer.toString loadedVal +:+ "]" +:+ C.RESET)
        +:+ inspectMemory mem (Some loadedVal)
  | Throw => ""
  end.

(** The ['mem'] case of [formatOperandDetails]. *)
Definition format_mem (g : Globals) (mem : Memory) (context : CpuContext)
    (base : option string) (disp : Z) : completion string :=
  r ← (if base_truthy base then
         baseValue ← getRegisterValue g context (base_display base);
         match baseValue with
         | VPtr bv =>
             let calculatedAddr := NativePointer.add bv disp in
             Ok (NativePointer.toString calculatedAddr, mem_content mem calculatedAddr)
         | _ => Ok ("N/A", "")
         end
       else Ok ("N/A", ""));
  Ok ("[" +:+ base_display base +:+ "+" +:+ JS.num_toString disp +:+ "]="
          +:+ fst r +:+ snd r).

(** One iteration of [instruction.operands.forEach]: the strings pushed. *)
Definition format_operand (g : Globals) (mem : Memory) (context : CpuContext)
    (op : Operand) : completion (list string) :=
  match op with
  | OpReg value => d ← format_reg g mem context value; Ok [d]
  | OpMem base disp => d ← format_mem g mem context base disp; Ok [d]
  | OpImm value => Ok [C.GREEN +:+ "#" +:+ JS.num_toString value +:+ C.RESET]
  | OpOther => Ok []
  end.

Fixpoint format_operands (g : Globals) (mem : Memory) (context : CpuContext)
    (ops : list Operand) (details : list string) : completion (list string) :=
  match ops with
  | [] => Ok details
  | op :: rest =>
      pushed ← format_operand g mem context op;
      format_operands g mem context rest (details ++ pushed)
  end.

(** [formatOperandDetails(instruction, context)] *)
Definition formatOperandDetails (g : Globals) (mem : Memory)
    (instruction : Instruction) (context : CpuContext) : completion string :=
  details ← format_operands g mem context (operands instruction) [];
  Ok (if (0 <? length details)%nat then "(" +:+ JS.join ", " details +:+ ")" else "").

Definition GENERAL_REGS : list string :=
  ["x0"; "x1"; "x2"; "x3"; "x8"; "fp"; "lr"; "sp"].

(** The [for ... of GENERAL_REGS] loop of [getDiffRegisters]; [lastRegs]
    is mutated in place, so the map is returned next to the completion. *)
Fixpoint diff_loop (context : CpuContext) (regs : list string)
    (lastRegs : gmap string string) (changed : list string)
  : gmap string string * completion (list string) :=
  match regs with
  | [] => (lastRegs, Ok changed)
  | regName :: rest =>
      match context_get context regName with
      | None => (lastRegs, Throw)
      | Some val =>
          let newValue := NativePointer.toString val in
          let changed' :=
            if decide (lastRegs !! regName = Some newValue) then changed
            else changed ++ [regName +:+ "=" +:+ newValue] in
          diff_loop context rest (<[regName := newValue]> lastRegs) changed'
      end
  end.

Definition diff_note (changed : list string) : string :=
  if (0 <? length changed)%nat
  then " | { " +:+ C.RED +:+ JS.join ", " changed +:+ C.RESET +:+ " }"
  else "".

(** [getDiffRegisters(context, lastRegs)] *)
Definition getDiffRegisters (context : CpuContext) (lastRegs : gmap string string)
  : gmap string string * completion string :=
  match diff_loop context GENERAL_REGS lastRegs [] with
  | (lastRegs', Ok changed) => (lastRegs', Ok (diff_note changed))
  | (lastRegs', Throw) => (lastRegs', Throw)
  end.

(** ** The vector capture callout (C source of the CModule) *)

(** [memcpy(dst + off, src, n)] *)
Definition memcpy (dst : SimdBuffer) (off : nat) (src : nat -> Byte.byte) (n : nat)
  : SimdBuffer :=
  fun k => if ((off <=? k) && (k <? off + n))%nat then src (k - off)%nat else dst k.

(** The loop [for (i = 0; i < 16; i++) memcpy(out_buffer + i * 16, cpu->v[i], 16)],
    at index [i] with [n] iterations left. *)
Fixpoint dump_loop (cpu : CpuContext) (i n : nat) (out : SimdBuffer) : SimdBuffer :=
  match n with
  | O => out
  | S k => dump_loop cpu (S i) k (memcpy out (i * 16) (v cpu i) 16)
  end.

(** [dump_simd_regs(ctx, user_data)] *)
Definition dump_simd_regs (cpu : CpuContext) (out_buffer : SimdBuffer) : SimdBuffer :=
  dump_loop cpu 0 16 out_buffer.

(** ** Per-call trace state and the rendering callout *)

(** The properties the script stores on the invocation context in
    [onEnter]. *)
Record TraceState := {
  tid : Z;
  lastRegs : gmap string string;
  lastInstructionLog : option string;
  loopCounter : gmap string Z
}.

(** The state set up by [onEnter]. *)
Definition onEnter_state (t : Z) : TraceState :=
  {| tid := t; lastRegs := ∅; lastInstructionLog := None; loopCounter := ∅ |}.

(** External capabilities: the disassembler and the module query. *)
Record Host := {
  Instruction_parse : Z -> Instruction;
  Process_getModuleByAddress : Z -> completion Module_
}.

(** [getModuleByAddressSafe(address)] *)
Definition getModuleByAddressSafe (h : Host) (addr : Z) : option Module_ :=
  match Process_getModuleByAddress h addr with
  | Ok m => Some m
  | Throw => None
  end.

(** truthiness of [loopCounter[pcKey]]: [undefined] and [0] are falsy *)
Definition truthy_count (o : option Z) : bool :=
  match o with
  | Some n => negb (n =? 0)
  | None => false
  end.

(** [if (!loopCounter[pcKey]) loopCounter[pcKey] = 0; loopCounter[pcKey]++;]
    The entry exists when the increment reads it. *)
Definition bump (loopCounter : gmap string Z) (pcKey : string) : gmap string Z :=
  let lc := if negb (truthy_count (loopCounter !! pcKey))
            then <[pcKey := 0]> loopCounter else loopCounter in
  <[pcKey := default 0 (lc !! pcKey) + 1]> lc.

Definition set_loopCounter (st : TraceState) (lc : gmap string Z) : TraceState :=
  {| tid := tid st; lastRegs := lastRegs st;
     lastInstructionLog := lastInstructionLog st; loopCounter := lc |}.

Definition set_lastRegs (st : TraceState) (regs : gmap string string) : TraceState :=
  {| tid := tid st; lastRegs := regs;
     lastInstructionLog := lastInstructionLog st; loopCounter := loopCounter st |}.

Definition set_lastInstructionLog (st : TraceState) (l : string) : TraceState :=
  {| tid := tid st; lastRegs := lastRegs st;
     lastInstructionLog := Some l; loopCounter := loopCounter st |}.

(** The line assigned to [lastInstructionLog]. *)
Definition render_line (module : Module_) (context : CpuContext)
    (currentInstr : Instruction) (operandDetails : string) : string :=
  let offset := NativePointer.sub (NativePointer.ptr (pc context)) (base module) in
  let color0 := C.CYAN in
  let color1 := if JS.startsWith (mnemonic currentInstr) "bl" then C.YELLOW else color0 in
  let color := if JS.startsWith (mnemonic currentInstr) "ret" then C.RED else color1 in
  (C.GRAY +:+ "[" +:+ NativePointer.toString offset +:+ "]" +:+ C.RESET +:+ " ")
    +:+ (NativePointer.toString (address currentInstr) +:+ " ")
    +:+ (color +:+ JS.padEnd (mnemonic currentInstr) 8 +:+ C.RESET +:+ " ")
    +:+ (JS.padEnd (opStr currentInstr) 30 +:+ " ")
    +:+ JS.padEnd operandDetails 40.

(** [if (lastInstructionLog) console.log(lastInstructionLog + suffix)] *)
Definition flush_pending (pending : option string) (suffix : string) : list string :=
  match pending with
  | Some l => if JS.truthy_string l then [l +:+ suffix] else []
  | None => []
  end.

(** The part of the callout after the loop gate: diff, flush of the
    previous line, rendering of the new pending line.  The result is the
    state left behind, the lines printed and the completion. *)
Definition render_steps (g : Globals) (h : Host) (mem : Memory) (module : Module_)
    (context : CpuContext) (stalkerCtx : TraceState)
  : TraceState * list string * completion unit :=
  match getDiffRegisters context (lastRegs stalkerCtx) with
  | (regs', Throw) => (set_lastRegs stalkerCtx regs', [], Throw)
  | (regs', Ok diff) =>
      let st1 := set_lastRegs stalkerCtx regs' in
      let out := flush_pending (lastInstructionLog stalkerCtx) diff in
      let currentInstr := Instruction_parse h (pc context) in
      match formatOperandDetails g mem currentInstr context with
      | Throw => (st1, out, Throw)
      | Ok operandDetails =>
          (set_lastInstructionLog st1 (render_line module context currentInstr operandDetails),
           out, Ok tt)
      end
  end.

(** The hit counter of [pcKey] after the increment. *)
Definition hit_count (stalkerCtx : TraceState) (pcKey : string) : Z :=
  default 0 (bump (loopCounter stalkerCtx) pcKey !! pcKey).

(** The JavaScript callout inserted by [transform]. *)
Definition callout (g : Globals) (h : Host) (mem : Memory) (module : Module_)
    (context : CpuContext) (stalkerCtx : TraceState)
  : TraceState * list string * completion unit :=
  let pcKey := NativePointer.toString (pc context) in
  let st1 := set_loopCounter stalkerCtx (bump (loopCounter stalkerCtx) pcKey) in
  let count := default 0 (loopCounter st1 !! pcKey) in
  if (count >? LOOP_THRESHOLD CONFIG) && negb (Z.rem count 100 =? 0)
  then (st1, [], Ok tt)
  else render_steps g h mem module context st1.

(** The line printed by [onEnter]. *)
Definition enter_banner (t : Z) : string :=
  C.YELLOW +:+ "[tid: " +:+ JS.num_toString t +:+ "] >>>>> 进入函数 >>>>>" +:+ C.RESET.

(** The last line printed by [onLeave]. *)
Definition leave_banner (retval : Z) : string :=
  C.YELLOW +:+ String "010" ("<<<<< 结束 (Ret=" +:+ NativePointer.toString retval
                              +:+ ") <<<<<" +:+ C.RESET +:+ String "010" "").

(** [onLeave(retval)]: the lines printed. *)
Definition onLeave (stalkerCtx : TraceState) (retval : Z) : list string :=
  flush_pending (lastInstructionLog stalkerCtx) "" ++ [leave_banner retval].

(** ** The transform callback *)

(** What the callback asks of the iterator, in order. *)
Inductive IteratorOp :=
| PutCalloutC
| PutCalloutJS (module : Module_)
| Keep (instruction : Instruction).

(** The body of the [do ... while] loop for one instruction. *)
Definition transform_body (g : Globals) (h : Host) (targetModuleName : string)
    (instruction : Instruction) : list IteratorOp :=
  let instrumented :=
    match getModuleByAddressSafe h (address instruction) with
    | Some module =>
        if String.eqb (name module) targetModuleName then
          (if cm g then [PutCalloutC] else []) ++ [PutCalloutJS module]
        else []
    | None => []
    end in
  instrumented ++ [Keep instruction].

(** [do { body } while ((instruction = iterator.next()) !== null)], with
    [rest] the instructions the iterator has not returned yet. *)
Fixpoint transform_loop (g : Globals) (h : Host) (targetModuleName : string)
    (instruction : Instruction) (rest : list Instruction) (ops : list IteratorOp)
  : list IteratorOp :=
  let ops' := ops ++ transform_body g h targetModuleName instruction in
  match rest with
  | [] => ops'
  | next :: rest' => transform_loop g h targetModuleName next rest' ops'
  end.

(** [transform(iterator)]: the first [iterator.next()] is not tested, so
    an iterator that offers nothing makes [instruction.address] throw. *)
Definition transform (g : Globals) (h : Host) (targetModuleName : string)
    (block : list Instruction) : completion (list IteratorOp) :=
  match block with
  | [] => Throw
  | first :: rest => Ok (transform_loop g h targetModuleName first rest [])
  end.


(** ** Definitions used to state the properties *)

(** The hexadecimal digits of a byte sequence, first byte first. *)
Fixpoint hex_of_bytes (bs : list Byte.byte) : string :=
  match bs with
  | [] => ""
  | b :: r => byte_hex b +:+ hex_of_bytes r
  end.

(** The bytes [b0 .. b15] of vector register [i] in the shadow buffer. *)
Definition captured (buf : SimdBuffer) (i : nat) : list Byte.byte :=
  map (fun k => buf (i * 16 + k)%nat) (seq 0 16).

Definition hex_val (c : ascii) : option N :=
  let n := N_of_ascii c in
  if ((48 <=? n) && (n <=? 57))%N then Some (n - 48)%N
  else if ((97 <=? n) && (n <=? 102))%N then Some (n - 87)%N
  else None.

Definition decode_pair (c1 c2 : ascii) : option Byte.byte :=
  match hex_val c1, hex_val c2 with
  | Some hi, Some lo => Byte.of_N (16 * hi + lo)
  | _, _ => None
  end.

Fixpoint decode_pairs (s : string) : option (list Byte.byte) :=
  match s with
  | EmptyString => Some []
  | String c1 (String c2 r) =>
      match decode_pair c1 c2, decode_pairs r with
      | Some b, Some bs => Some (b :: bs)
      | _, _ => None
      end
  | String _ EmptyString => None
  end.

(** Reading a displayed literal [0x...] back: the bytes in display order. *)
Definition hex_decode (s : string) : option (list Byte.byte) :=
  match s with
  | String "0" (String "x" r) => decode_pairs r
  | _ => None
  end.

(** The results [getRegisterValue] can give: a register value, the
    unavailable value [undefined], a 16-byte hexadecimal literal, or one of
    the three markers. *)
Inductive defined_result : JSValue -> Prop :=
| res_value p : defined_result (VPtr p)
| res_unavailable : defined_result VUndefined
| res_vector bs : length bs = 16%nat ->
    defined_result (VStr ("0x" +:+ hex_of_bytes bs))
| res_out_of_range : defined_result (VStr "(SIMD-OOB)")
| res_no_bridge : defined_result (VStr "(No-CModule)")
| res_no_index : defined_result (VStr "?").

Fixpoint all_digits (s : string) : bool :=
  match s with
  | EmptyString => true
  | String c r => JS.is_digit c && all_digits r
  end.

(** One run of the rendering callout: the module captured by the closure
    and what the callout finds when it runs (registers, memory, the
    module-level variables with the buffer as the capture left it). *)
Record Hit := {
  hit_module : Module_;
  hit_context : CpuContext;
  hit_mem : Memory;
  hit_globals : Globals
}.

Definition callout_at (h : Host) (hit : Hit) (stalkerCtx : TraceState)
  : TraceState * list string * completion unit :=
  callout (hit_globals hit) h (hit_mem hit) (hit_module hit) (hit_context hit) stalkerCtx.

(** The callouts of one activation in the order they run; an exception
    escaping a callout is reported by the runtime and the trace goes on. *)
Fixpoint run_callouts (h : Host) (hits : list Hit) (stalkerCtx : TraceState)
  : TraceState * list string :=
  match hits with
  | [] => (stalkerCtx, [])
  | hit :: rest =>
      let '(st1, out1, _) := callout_at h hit stalkerCtx in
      let '(st2, out2) := run_callouts h rest st1 in
      (st2, out1 ++ out2)
  end.

(** Everything one activation prints: [onEnter], the callouts, [onLeave]. *)
Definition activation (h : Host) (t : Z) (hits : list Hit) (retval : Z) : list string :=
  let '(st, out) := run_callouts h hits (onEnter_state t) in
  [enter_banner t] ++ out ++ onLeave st retval.

(** The rendering rule in the words of the specification: a hit is
    rendered iff its count is at most the threshold or a multiple of 100. *)
Definition renders (count : Z) : bool :=
  (count <=? 10) || (count mod 100 =? 0).

Definition pcKey_of (hit : Hit) : string :=
  NativePointer.toString (pc (hit_context hit)).

(** The hits of a run that pass the gate, by the rule [renders], counting
    per program counter from the counters [lc]. *)
Fixpoint passing (lc : gmap string Z) (hits : list Hit) : list Hit :=
  match hits with
  | [] => []
  | hit :: rest =>
      let count := default 0 (lc !! pcKey_of hit) + 1 in
      let lc' := <[pcKey_of hit := count]> lc in
      if renders count then hit :: passing lc' rest else passing lc' rest
  end.

Definition completed {A} (c : completion A) (d : A) : A :=
  match c with
  | Ok a => a
  | Throw => d
  end.

(** The rendering of the instruction of a hit. *)
Definition line_of (h : Host) (hit : Hit) : string :=
  let currentInstr := Instruction_parse h (pc (hit_context hit)) in
  render_line (hit_module hit) (hit_context hit) currentInstr
    (completed (formatOperandDetails (hit_globals hit) (hit_mem hit)
                  currentInstr (hit_context hit)) "").

(** The register diff of a hit against the renderings [regs]. *)
Definition diff_of (hit : Hit) (regs : gmap string string) : string :=
  completed (snd (getDiffRegisters (hit_context hit) regs)) "".

Definition regs_after (hit : Hit) (regs : gmap string string) : gmap string string :=
  fst (getDiffRegisters (hit_context hit) regs).

(** Deferred printing in the words of the specification, over the
    gate-passing hits: each hit first prints the pending line of the hit
    before it, followed by its own diff, and leaves its own line pending;
    at the end the pending line is printed alone. *)
Fixpoint deferred_lines (h : Host) (pending : option string)
    (regs : gmap string string) (hits : list Hit) : list string :=
  match hits with
  | [] => match pending with Some l => [l] | None => [] end
  | hit :: rest =>
      match pending with Some l => [l +:+ diff_of hit regs] | None => [] end
        ++ deferred_lines h (Some (line_of h hit)) (regs_after hit regs) rest
  end.

(** The pending slot holds no line or a non-empty line. *)
Definition pending_ok (st : TraceState) : Prop :=
  match lastInstructionLog st with
  | Some l => l <> ""
  | None => True
  end.

(** The test of the early [return] of the callout, on the count the hit
    gets in state [st]. *)
Definition gate_closed (st : TraceState) (hit : Hit) : bool :=
  let count := hit_count st (pcKey_of hit) in
  (count >? LOOP_THRESHOLD CONFIG) && negb (Z.rem count 100 =? 0).

Definition hit_at (g : Globals) (mem : Memory) (module : Module_)
    (context : CpuContext) : Hit :=
  {| hit_module := module; hit_context := context; hit_mem := mem; hit_globals := g |}.

(** Every hit of the run is stopped by the gate, each in the state the
    callouts before it have left. *)
Fixpoint all_suppressed (h : Host) (hits : list Hit) (st : TraceState) : bool :=
  match hits with
  | [] => true
  | hit :: rest =>
      gate_closed st hit && all_suppressed h rest (fst (fst (callout_at h hit st)))
  end.

(** The module of an instruction when it is the target module. *)
Definition in_target (h : Host) (targetModuleName : string) (i : Instruction)
  : option Module_ :=
  match getModuleByAddressSafe h (address i) with
  | Some m => if String.eqb (name m) targetModuleName then Some m else None
  | None => None
  end.

(** The policy in the words of the specification: for an instruction of
    the target module the capture callout, then the rendering callout;
    the instruction is kept in every case. *)
Definition policy_ops (h : Host) (targetModuleName : string) (i : Instruction)
  : list IteratorOp :=
  match in_target h targetModuleName i with
  | Some m => [PutCalloutC; PutCalloutJS m]
  | None => []
  end ++ [Keep i].

(** The instructions an operation list keeps, in order. *)
Definition kept (ops : list IteratorOp) : list Instruction :=
  flat_map (fun op => match op with Keep i => [i] | _ => [] end) ops.

(** How many of the hits are at the program counter rendered as [k]. *)
Fixpoint hits_at (k : string) (hits : list Hit) : Z :=
  match hits with
  | [] => 0
  | hit :: rest => (if String.eqb (pcKey_of hit) k then 1 else 0) + hits_at k rest
  end.

(** The base register of a memory operand resolves to the pointer [bv]. *)
Definition base_resolves (g : Globals) (context : CpuContext)
    (base : option string) (bv : Z) : Prop :=
  exists b, base = Some b /\ b <> "" /\ getRegisterValue g context b = Ok (VPtr bv).

(** The symbolic form [[base+disp]=] every memory operand is printed with. *)
Definition symbolic (base : option string) (disp : Z) : string :=
  "[" +:+ base_display base +:+ "+" +:+ JS.num_toString disp +:+ "]=".

(** The annotation of a loaded word: the value and its inspection. *)
Definition loaded_note (mem : Memory) (loadedVal : Z) : string :=
  (" " +:+ C.BLUE +:+ "[val=" +:+ NativePointer.toString loadedVal +:+ "]" +:+ C.RESET)
    +:+ inspectMemory mem (Some loadedVal).

(** ** Definitions used to state further properties *)

(** The rendering [context[r].toString()] of a register; the empty string
    stands for a name the context does not have. *)
Definition rendering (context : CpuContext) (r : string) : string :=
  match context_get context r with
  | Some val => NativePointer.toString val
  | None => ""
  end.

(** The entries [r=value] of the registers of [regs] whose stored
    rendering in [lastRegs] differs from the current one, in order. *)
Fixpoint changed_of (context : CpuContext) (lastRegs : gmap string string)
    (regs : list string) : list string :=
  match regs with
  | [] => []
  | r :: rest =>
      (if decide (lastRegs !! r = Some (rendering context r)) then []
       else [r +:+ "=" +:+ rendering context r])
        ++ changed_of context lastRegs rest
  end.


(** ** Concrete inputs used in examples *)

Definition demo_context : CpuContext :=
  {| x := fun n => 0x20000 + 8 * Z.of_nat n;
     fp := 0x7ffff000; lr := 0x4000b00; sp := 0x7fffe000; pc := 0x4000a3c;
     v := fun i j => Byte.x00 |}.

(** A buffer whose byte at offset [k] is [k]. *)
Definition demo_buffer : SimdBuffer :=
  fun k => match Byte.of_N (N.of_nat k) with Some b => b | None => Byte.x00 end.

Definition demo_globals : Globals := {| cm := true; simdBuffer := Some demo_buffer |}.

(** Nothing is readable. *)
Definition no_memory : Memory := fun _ => None.

(** One readable page, 0x20000 to 0x21000, zero except for the bytes of
    OK! at its start and the word 0x30000 in its last eight bytes; the
    pages around it are unreadable. *)
Definition page_memory : Memory :=
  fun a => if (0x20000 <=? a) && (a <? 0x21000)
           then Some (if a =? 0x20000 then Byte.x4f
                      else if a =? 0x20001 then Byte.x4b
                      else if a =? 0x20002 then Byte.x21
                      else if a =? 0x20ffa then Byte.x03
                      else Byte.x00)
           else None.

Definition demo_module : Module_ := {| name := "libnative-lib.so"; base := 0x4000000 |}.

(** A disassembler that knows [mov x0, #5; add x0, x0, x1; ret] at offset 0xa3c. *)
Definition demo_host : Host :=
  {| Instruction_parse := fun a =>
       if a =? 0x4000a3c then
         {| address := a; mnemonic := "mov"; opStr := "x0, #5";
            operands := [OpReg "x0"; OpImm 5] |}
       else if a =? 0x4000a40 then
         {| address := a; mnemonic := "add"; opStr := "x0, x0, x1";
            operands := [OpReg "x0"; OpReg "x0"; OpReg "x1"] |}
       else {| address := a; mnemonic := "ret"; opStr := ""; operands := [] |};
     Process_getModuleByAddress := fun a =>
       if (0x4000000 <=? a) && (a <? 0x4001000) then Ok demo_module else Throw |}.

(** The context before an instruction at [pc] with [x0 = x0v], [x1 = 7]
    and every other watched register fixed. *)
Definition demo_regs (pcv x0v : Z) : CpuContext :=
  {| x := fun n => match n with O => x0v | 1%nat => 7 | _ => 0 end;
     fp := 0x7ffff000; lr := 0x4000b00; sp := 0x7fffe000; pc := pcv;
     v := fun i j => Byte.x00 |}.

Definition demo_hit (pcv x0v : Z) : Hit :=
  hit_at demo_globals no_memory demo_module (demo_regs pcv x0v).

(** The three callouts of [mov x0, #5; add x0, x0, x1; ret]. *)
Definition demo_hits : list Hit :=
  [demo_hit 0x4000a3c 0; demo_hit 0x4000a40 5; demo_hit 0x4000a44 12].

(** A state in which the instruction at 0x4000a3c has been hit 10 times
    and its line is pending. *)
Definition demo_hot_state : TraceState :=
  {| tid := 7;
     lastRegs := regs_after (demo_hit 0x4000a3c 0) ∅;
     lastInstructionLog := Some (line_of demo_host (demo_hit 0x4000a3c 0));
     loopCounter := {[ "0x4000a3c" := 10 ]} |}.

(** * Verified properties *)

(** ** Strings and numbers *)

Lemma append_cons (ch : ascii) (a b : string) :
  String ch a +:+ b = String ch (a +:+ b).
Proof. reflexivity. Qed.

Lemma append_assoc (a b c : string) : (a +:+ b) +:+ c = a +:+ (b +:+ c).
Proof.
  induction a as [|ch a IH]; [reflexivity|].
  rewrite !append_cons. f_equal. exact IH.
Qed.

Lemma append_empty_r (a : string) : a +:+ "" = a.
Proof.
  induction a as [|ch a IH]; [reflexivity|].
  rewrite append_cons. f_equal. exact IH.
Qed.

Lemma take_digits_all (s : string) : all_digits s = true -> JS.take_digits s = s.
Proof.
  induction s as [|c r IH]; simpl; [reflexivity|].
  intros [Hc Hr]%andb_true_iff. rewrite Hc, IH; auto.
Qed.

Lemma take_digits_digits (s : string) : all_digits (JS.take_digits s) = true.
Proof.
  induction s as [|c r IH]; simpl; [reflexivity|].
  destruct (JS.is_digit c) eqn:Hc; simpl; [now rewrite Hc | reflexivity].
Qed.

Lemma match_digits_digits (s m : string) :
  JS.match_digits s = Some m -> all_digits m = true.
Proof.
  induction s as [|c r IH]; simpl; [discriminate|].
  destruct (JS.is_digit c) eqn:Hc; [|exact IH].
  intros [= <-]. simpl. now rewrite Hc, take_digits_digits.
Qed.

Lemma is_digit_range (c : ascii) :
  JS.is_digit c = true -> 0 <= Z.of_N (N_of_ascii c) - 48 <= 9.
Proof.
  unfold JS.is_digit. intros [H1 H2]%andb_true_iff.
  apply N.leb_le in H1, H2. lia.
Qed.

Lemma parse_digits_nonneg (s : string) :
  all_digits s = true -> forall acc, 0 <= acc -> 0 <= JS.parse_digits s acc.
Proof.
  induction s as [|c r IH]; simpl; [auto|].
  intros [Hc Hr]%andb_true_iff acc Hacc.
  apply IH; [assumption|]. apply is_digit_range in Hc. lia.
Qed.

Lemma parseInt_nonneg (s m : string) :
  JS.match_digits s = Some m -> 0 <= JS.parseInt m.
Proof.
  intros H. apply parse_digits_nonneg; [|lia]. eapply match_digits_digits, H.
Qed.

Lemma uint_string_digits (d : Decimal.uint) :
  all_digits (DecimalString.NilEmpty.string_of_uint d) = true.
Proof. induction d; cbn; auto. Qed.

Lemma parse_uint (d : Decimal.uint) :
  forall acc,
    JS.parse_digits (DecimalString.NilEmpty.string_of_uint d) acc =
    acc * 10 ^ Z.of_N (DecimalPos.Unsigned.usize d)
      + Z.of_N (DecimalPos.Unsigned.of_lu (Decimal.rev d)).
Proof.
  induction d as [|d IH|d IH|d IH|d IH|d IH|d IH|d IH|d IH|d IH|d IH]; intros acc;
    [cbn; lia | ..];
    cbn [DecimalString.NilEmpty.string_of_uint JS.parse_digits DecimalPos.Unsigned.usize];
    rewrite IH; unfold Decimal.rev at 2; cbn [Decimal.revapp];
    rewrite DecimalPos.Unsigned.of_lu_revapp;
    rewrite N2Z.inj_succ, Z.pow_succ_r by lia;
    rewrite N2Z.inj_add, N2Z.inj_mul, N2Z.inj_pow;
    cbn [DecimalPos.Unsigned.of_lu];
    repeat match goal with
           | |- context [Z.of_N ?n] =>
               lazymatch n with
               | context [d] => fail
               | _ => let v := eval vm_compute in (Z.of_N n) in
                      progress change (Z.of_N n) with v
               end
           end;
    ring.
Qed.

Lemma parse_NilZero (d : Decimal.uint) :
  JS.parseInt (DecimalString.NilZero.string_of_uint d) = Z.of_N (Pos.of_uint d).
Proof.
  rewrite DecimalPos.Unsigned.of_uint_alt. unfold JS.parseInt.
  destruct d; try (cbn [DecimalString.NilZero.string_of_uint]; rewrite parse_uint; lia).
  reflexivity.
Qed.

Lemma parseInt_num_toString (i : Z) : 0 <= i -> JS.parseInt (JS.num_toString i) = i.
Proof.
  intros Hi. unfold JS.num_toString. destruct i as [|p|p]; [reflexivity| |lia].
  cbn [Z.to_int DecimalString.NilZero.string_of_int].
  rewrite parse_NilZero, DecimalPos.Unsigned.of_to. reflexivity.
Qed.

Lemma num_toString_digits (i : Z) :
  0 <= i ->
  exists c r, JS.num_toString i = String c r /\ JS.is_digit c = true /\ all_digits r = true.
Proof.
  intros Hi. unfold JS.num_toString. destruct i as [|p|p]; [| |lia].
  - exists "0"%char, "". repeat split.
  - cbn [Z.to_int DecimalString.NilZero.string_of_int].
    pose proof (DecimalPos.Unsigned.to_uint_nonnil p) as Hnil.
    pose proof (uint_string_digits (Pos.to_uint p)) as Hd.
    destruct (Pos.to_uint p); [congruence | ..];
      cbn [DecimalString.NilZero.string_of_uint DecimalString.NilEmpty.string_of_uint
           all_digits] in *;
      apply andb_true_iff in Hd; destruct Hd as [Hc Hr];
      do 2 eexists; (split; [reflexivity|]); (split; [exact Hc | exact Hr]).
Qed.

Lemma digit_not_p (c : ascii) : JS.is_digit c = true -> Ascii.eqb c "p" = false.
Proof.
  destruct c as [[] [] [] [] [] [] [] []]; try discriminate; reflexivity.
Qed.

(** ** [isSafePointer] *)

Lemma land_7_mod_8 (p : Z) : Z.land p 7 = p mod 8.
Proof. change 7 with (Z.ones 3). rewrite Z.land_ones by lia. reflexivity. Qed.

Lemma toInt32_small (z : Z) : 0 <= z < 2 ^ 31 -> NativePointer.toInt32 z = z.
Proof.
  intros H. unfold NativePointer.toInt32.
  rewrite Z.mod_small by lia.
  destruct (z <? 2 ^ 31) eqn:E; [reflexivity | apply Z.ltb_ge in E; lia].
Qed.

Lemma compare_neg (p q : Z) : (NativePointer.compare p q <? 0) = (p <? q).
Proof.
  unfold NativePointer.compare, Z.ltb at 2.
  destruct (p ?= q); reflexivity.
Qed.

Lemma isSafePointer_eq (p : Z) :
  isSafePointer (Some p) = negb (p =? 0) && (0x10000 <=? p) && (p mod 8 =? 0).
Proof.
  unfold isSafePointer, NativePointer.isNull, NativePointer.and.
  rewrite compare_neg, land_7_mod_8.
  rewrite toInt32_small by (pose proof (Z.mod_pos_bound p 8); lia).
  rewrite Z.leb_antisym.
  destruct (p =? 0), (p <? 65536), (p mod 8 =? 0); reflexivity.
Qed.

(** C7.  [isSafePointer] answers true exactly for a non-null pointer that
    is at or above the floor 0x10000 and aligned to 8 bytes; on null, on
    zero, below the floor and on a misaligned value it answers false.  It
    is a total function: no input makes it throw. *)
Theorem isSafePointer_spec (ptrVal : option Z) :
  isSafePointer ptrVal = true <->
  exists p, ptrVal = Some p /\ p <> 0 /\ 0x10000 <= p /\ p mod 8 = 0.
Proof.
  destruct ptrVal as [p|].
  - rewrite isSafePointer_eq, !andb_true_iff, negb_true_iff.
    rewrite Z.eqb_neq, Z.leb_le, Z.eqb_eq.
    split.
    + intros [[H0 H1] H2]. exists p. auto.
    + intros (q & [= <-] & H0 & H1 & H2). auto.
  - split; [discriminate|]. intros (q & H & _). discriminate.
Qed.

(** ** [toHex128] and [getRegisterValue] *)

Lemma hex_of_bytes_app (xs ys : list Byte.byte) :
  hex_of_bytes (xs ++ ys) = hex_of_bytes xs +:+ hex_of_bytes ys.
Proof.
  induction xs as [|b xs IH]; [reflexivity|].
  cbn [hex_of_bytes app]. rewrite IH, append_assoc. reflexivity.
Qed.

Lemma hex_loop_ok (u8 : list Byte.byte) (n : nat) :
  (n <= length u8)%nat ->
  forall hex, hex_loop u8 n hex = Ok (hex +:+ hex_of_bytes (rev (take n u8))).
Proof.
  induction n as [|i IH]; intros Hn hex.
  - cbn. now rewrite append_empty_r.
  - destruct (lookup_lt_is_Some_2 u8 i) as [b Hb]; [lia|].
    cbn [hex_loop]. rewrite Hb, IH by lia.
    rewrite (take_S_r _ _ _ Hb), rev_app_distr. cbn [rev app hex_of_bytes].
    now rewrite append_assoc.
Qed.

Lemma buffer_read_ok (b : SimdBuffer) (off : Z) (n : nat) :
  0 <= off -> off + Z.of_nat n <= SIMD_BUFFER_SIZE ->
  buffer_read b off n = Ok (map (fun k => b (Z.to_nat off + k)%nat) (seq 0 n)).
Proof.
  intros H0 H1. unfold buffer_read.
  destruct (0 <=? off) eqn:E0; [|apply Z.leb_gt in E0; lia].
  destruct (off + Z.of_nat n <=? SIMD_BUFFER_SIZE) eqn:E1;
    [reflexivity | apply Z.leb_gt in E1; lia].
Qed.

Lemma toHex128_ok (buf : SimdBuffer) (i : Z) :
  0 <= i < 16 ->
  toHex128 buf (i * 16) = Ok ("0x" +:+ hex_of_bytes (rev (captured buf (Z.to_nat i)))).
Proof.
  intros Hi. unfold toHex128.
  rewrite buffer_read_ok by (unfold SIMD_BUFFER_SIZE; lia).
  cbn [mbind completion_bind].
  rewrite hex_loop_ok by (rewrite length_map, length_seq; lia).
  cbn [mbind completion_bind]. unfold captured.
  replace (Z.to_nat (i * 16)) with (Z.to_nat i * 16)%nat by lia.
  reflexivity.
Qed.

Lemma captured_length (buf : SimdBuffer) (i : nat) : length (captured buf i) = 16%nat.
Proof. reflexivity. Qed.

Lemma simd_rule_ok (g : Globals) (regName : string) :
  exists val, simd_rule g regName = Ok val /\ defined_result val.
Proof.
  unfold simd_rule. destruct (simdBuffer g) as [buf|]; [|eauto using defined_result].
  destruct (JS.match_digits regName) as [m|] eqn:Hm; [|eauto using defined_result].
  pose proof (parseInt_nonneg _ _ Hm) as Hpos.
  destruct (JS.parseInt m <? 16) eqn:Hlt; [|eauto using defined_result].
  apply Z.ltb_lt in Hlt. rewrite toHex128_ok by lia.
  eexists. split; [reflexivity|].
  apply res_vector. now rewrite length_rev, captured_length.
Qed.

Lemma getRegisterValue_ok (g : Globals) (context : CpuContext) (regName : string) :
  exists val, getRegisterValue g context regName = Ok val.
Proof.
  unfold getRegisterValue.
  repeat match goal with
         | |- context [if ?b then _ else _] => destruct b; eauto
         end.
  destruct (simd_rule_ok g regName) as (val & Hval & _). eauto.
Qed.

(** C3.  For every context, every state of the bridge and every register
    name, [getRegisterValue] completes normally, and what it returns is a
    register value, [undefined] (unavailable), a 16-byte hexadecimal
    literal, or one of the markers (SIMD-OOB), (No-CModule) and ?. *)
Theorem getRegisterValue_total (g : Globals) (context : CpuContext) (regName : string) :
  exists val, getRegisterValue g context regName = Ok val /\ defined_result val.
Proof.
  unfold getRegisterValue.
  destruct (String.eqb regName "sp"); [eauto using defined_result|].
  destruct (String.eqb regName "wzr" || String.eqb regName "xzr");
    [eauto using defined_result|].
  destruct (JS.startsWith regName "w").
  { eexists. split; [reflexivity|]. unfold alias_rule.
    destruct (context_get _ _); constructor. }
  destruct (simd_class regName); [apply simd_rule_ok|].
  eexists. split; [reflexivity|].
  destruct (context_get context regName); constructor.
Qed.

(** C4.  The name sp is answered from the stack-pointer field of the
    context, whatever the state of the bridge, although sp has the SIMD
    prefix s and no digit: the SIMD rule alone would classify it as a
    vector name and answer a marker, and the alias rule does not apply. *)
Theorem stack_pointer_first (g : Globals) (context : CpuContext) :
  getRegisterValue g context "sp" = Ok (VPtr (sp context)) /\
  JS.startsWith "sp" "w" = false /\
  simd_class "sp" = true /\
  simd_rule g "sp" =
    Ok (VStr (match simdBuffer g with Some _ => "?" | None => "(No-CModule)" end)).
Proof.
  repeat split.
  unfold simd_rule. destruct (simdBuffer g); reflexivity.
Qed.

(** ** Vector registers: capture, display and decoding *)

Lemma vector_name_rule (g : Globals) (context : CpuContext) (p : string)
    (c : ascii) (r : string) :
  In p SIMD_PREFIXES -> JS.is_digit c = true -> all_digits r = true ->
  getRegisterValue g context (p +:+ String c r) = simd_rule g (p +:+ String c r) /\
  JS.match_digits (p +:+ String c r) = Some (String c r).
Proof.
  intros Hp Hc Hr.
  assert (Hm : JS.match_digits (String c r) = Some (String c r)).
  { cbn [JS.match_digits]. rewrite Hc, take_digits_all by assumption. reflexivity. }
  unfold SIMD_PREFIXES in Hp. cbn [In] in Hp.
  destruct Hp as [<-|[<-|[<-|[<-|[<-|[]]]]]];
    rewrite append_cons; change ("" +:+ String c r) with (String c r);
    (split; [| exact Hm]);
    unfold getRegisterValue; cbn;
    rewrite ?(digit_not_p c Hc); reflexivity.
Qed.

Lemma byte_hex_decode (b : Byte.byte) :
  exists c1 c2, byte_hex b = String c1 (String c2 "") /\ decode_pair c1 c2 = Some b.
Proof. destruct b; do 2 eexists; split; reflexivity. Qed.

Lemma decode_pairs_hex (bs : list Byte.byte) : decode_pairs (hex_of_bytes bs) = Some bs.
Proof.
  induction bs as [|b r IH]; [reflexivity|].
  destruct (byte_hex_decode b) as (c1 & c2 & Hb & Hd).
  cbn [hex_of_bytes]. rewrite Hb, !append_cons.
  change ("" +:+ hex_of_bytes r) with (hex_of_bytes r).
  cbn [decode_pairs]. now rewrite Hd, IH.
Qed.

Lemma hex_decode_literal (bs : list Byte.byte) :
  hex_decode ("0x" +:+ hex_of_bytes bs) = Some bs.
Proof. exact (decode_pairs_hex bs). Qed.

Lemma dump_loop_at (cpu : CpuContext) (n : nat) :
  forall (i : nat) (out : SimdBuffer) (o : nat),
    dump_loop cpu i n out o =
    if ((i * 16 <=? o) && (o <? (i + n) * 16))%nat
    then v cpu (o / 16)%nat (o mod 16)%nat else out o.
Proof.
  induction n as [|n IH]; intros i out o; cbn [dump_loop].
  - destruct (i * 16 <=? o)%nat eqn:E1, (o <? (i + 0) * 16)%nat eqn:E2; try reflexivity.
    apply Nat.leb_le in E1. apply Nat.ltb_lt in E2. lia.
  - rewrite IH. unfold memcpy.
    pose proof (Nat.div_mod_eq o 16) as Hdm.
    pose proof (Nat.mod_upper_bound o 16 ltac:(lia)) as Hm.
    destruct (S i * 16 <=? o)%nat eqn:E1, (o <? (S i + n) * 16)%nat eqn:E2,
             (i * 16 <=? o)%nat eqn:E3, (o <? (i + S n) * 16)%nat eqn:E4,
             (o <? i * 16 + 16)%nat eqn:E5;
      cbn [andb]; try reflexivity;
      repeat match goal with
             | H : (_ <=? _)%nat = true |- _ => apply Nat.leb_le in H
             | H : (_ <=? _)%nat = false |- _ => apply Nat.leb_gt in H
             | H : (_ <? _)%nat = true |- _ => apply Nat.ltb_lt in H
             | H : (_ <? _)%nat = false |- _ => apply Nat.ltb_ge in H
             end;
      try lia.
    all: replace (o / 16)%nat with i by lia; f_equal; lia.
Qed.

Lemma dump_simd_regs_captured (cpu : CpuContext) (out : SimdBuffer) (i : nat) :
  (i < 16)%nat -> captured (dump_simd_regs cpu out) i = map (v cpu i) (seq 0 16).
Proof.
  intros Hi. unfold captured. apply map_ext_in. intros k Hk%in_seq.
  unfold dump_simd_regs. rewrite dump_loop_at.
  pose proof (Nat.div_mod_eq (i * 16 + k) 16) as Hdm.
  pose proof (Nat.mod_upper_bound (i * 16 + k) 16 ltac:(lia)) as Hm.
  destruct (0 * 16 <=? i * 16 + k)%nat eqn:E1; [|apply Nat.leb_gt in E1; lia].
  destruct (i * 16 + k <? (0 + 16) * 16)%nat eqn:E2; [|apply Nat.ltb_ge in E2; lia].
  cbn [andb]. f_equal; lia.
Qed.

(** C5.  For a vector name, a SIMD prefix followed by the decimal index
    [i]: without a buffer the lookup answers the marker (No-CModule); with
    a buffer and [i] at least 16 it answers the marker (SIMD-OOB); with a
    buffer and [i] below 16 it answers the literal 0x followed by the
    hexadecimal digits of the bytes b15 down to b0 of slot [i] of the
    buffer, and reading the literal back gives those 16 bytes in reverse
    buffer order.  After the capture callout, slot [i] holds the bytes of
    vector register [i] of the captured context.  The markers differ from
    each other and from the unavailable value, and a failed compilation of
    the CModule leaves no buffer. *)
Theorem vector_lookup (g : Globals) (context : CpuContext) (p : string) (i : Z) :
  In p SIMD_PREFIXES -> 0 <= i ->
  match simdBuffer g with
  | None =>
      getRegisterValue g context (p +:+ JS.num_toString i) = Ok (VStr "(No-CModule)")
  | Some buf =>
      if i <? 16 then
        exists s,
          getRegisterValue g context (p +:+ JS.num_toString i) = Ok (VStr s) /\
          s = "0x" +:+ hex_of_bytes (rev (captured buf (Z.to_nat i))) /\
          hex_decode s = Some (rev (captured buf (Z.to_nat i))) /\
          forall cpu out, buf = dump_simd_regs cpu out ->
            captured buf (Z.to_nat i) = map (v cpu (Z.to_nat i)) (seq 0 16)
      else
        getRegisterValue g context (p +:+ JS.num_toString i) = Ok (VStr "(SIMD-OOB)")
  end /\
  VStr "(SIMD-OOB)" <> VStr "(No-CModule)" /\
  VStr "(SIMD-OOB)" <> VUndefined /\
  VStr "(No-CModule)" <> VUndefined /\
  (forall alloc, simdBuffer (init false alloc) = None).
Proof.
  intros Hp Hi. split; [|repeat split; discriminate].
  destruct (num_toString_digits i Hi) as (c & r & Hs & Hc & Hr).
  pose proof (parseInt_num_toString i Hi) as Hparse.
  rewrite Hs in *.
  destruct (vector_name_rule g context p c r Hp Hc Hr) as [Hg Hm].
  rewrite Hg. unfold simd_rule. rewrite Hm, Hparse.
  destruct (simdBuffer g) as [buf|]; [|reflexivity].
  destruct (i <? 16) eqn:Hlt; [|reflexivity].
  apply Z.ltb_lt in Hlt. rewrite toHex128_ok by lia.
  eexists. split; [reflexivity|]. split; [reflexivity|].
  split; [apply hex_decode_literal|].
  intros cpu out ->. apply dump_simd_regs_captured. lia.
Qed.

(** The lookups of q1 and q16 on [demo_buffer]. *)
Lemma vector_lookup_witness :
  In "q" SIMD_PREFIXES /\ 0 <= 1 /\ 0 <= 16 /\
  getRegisterValue demo_globals demo_context "q1"
    = Ok (VStr "0x1f1e1d1c1b1a19181716151413121110") /\
  getRegisterValue demo_globals demo_context "q16" = Ok (VStr "(SIMD-OOB)").
Proof.
  assert (Hq : In "q" SIMD_PREFIXES) by (left; reflexivity).
  assert (H1 : 0 <= 1) by lia.
  assert (H16 : 0 <= 16) by lia.
  split; [exact Hq|]. split; [exact H1|]. split; [exact H16|]. split.
  - destruct (vector_lookup demo_globals demo_context "q" 1 Hq H1) as [H _].
    destruct H as (s & Hg & Hs & _). rewrite Hs in Hg. exact Hg.
  - destruct (vector_lookup demo_globals demo_context "q" 16 Hq H16) as [H _].
    exact H.
Defined.

(** ** [inspectMemory] *)

Lemma read_bytes_take (mem : Memory) (n : nat) :
  forall p bs k, read_bytes mem p n = Some bs -> (k <= n)%nat ->
                 read_bytes mem p k = Some (take k bs).
Proof.
  induction n as [|n IH]; intros p bs k Hr Hk.
  - replace k with 0%nat by lia. cbn in *. now destruct bs.
  - cbn [read_bytes] in Hr.
    destruct (mem p) as [b|] eqn:Hb; [|discriminate].
    destruct (read_bytes mem (p + 1) n) as [r|] eqn:Hrest; [|discriminate].
    injection Hr as <-.
    destruct k as [|k]; [reflexivity|].
    cbn [read_bytes take]. rewrite Hb, (IH _ _ k Hrest) by lia. reflexivity.
Qed.

Lemma read_bytes_length (mem : Memory) (n : nat) :
  forall p bs, read_bytes mem p n = Some bs -> length bs = n.
Proof.
  induction n as [|n IH]; intros p bs Hr; cbn [read_bytes] in Hr.
  - now injection Hr as <-.
  - destruct (mem p); [|discriminate].
    destruct (read_bytes mem (p + 1) n) eqn:Hrest; [|discriminate].
    injection Hr as <-. cbn. f_equal. eauto.
Qed.

Lemma until_nul_idem (bs : list Byte.byte) : until_nul (until_nul bs) = until_nul bs.
Proof.
  induction bs as [|b r IH]; [reflexivity|]. cbn [until_nul].
  destruct (is_nul b) eqn:E; [reflexivity|]. cbn [until_nul]. now rewrite E, IH.
Qed.

Lemma until_nul_take (bs : list Byte.byte) :
  take (length (until_nul bs)) bs = until_nul bs.
Proof.
  induction bs as [|b r IH]; [reflexivity|]. cbn [until_nul].
  destruct (is_nul b); [reflexivity|]. cbn. now rewrite IH.
Qed.

Lemma until_nul_length (bs : list Byte.byte) : (length (until_nul bs) <= length bs)%nat.
Proof.
  induction bs as [|b r IH]; [reflexivity|]. cbn [until_nul].
  destruct (is_nul b); cbn; lia.
Qed.

(** The scan loop classifies the bytes before the first NUL; when they
    are all printable it has counted them. *)
Lemma scan_spec (u8 : list Byte.byte) :
  forall len,
    fst (scan u8 len) = forallb printable (until_nul u8) /\
    (forallb printable (until_nul u8) = true ->
     snd (scan u8 len) = (len + length (until_nul u8))%nat).
Proof.
  induction u8 as [|b r IH]; intros len; cbn [scan until_nul].
  - cbn. split; [reflexivity | lia].
  - destruct (is_nul b) eqn:En.
    + cbn. split; [reflexivity | lia].
    + cbn [forallb length]. destruct (printable b) eqn:Ep; cbn [negb andb].
      * destruct (IH (S len)) as [H1 H2]. split; [exact H1|].
        intros H. rewrite (H2 H). lia.
      * cbn. split; [reflexivity | discriminate].
Qed.

(** The first [try] block returns exactly when the 32 bytes are readable
    and the run before the terminator is printable and longer than 2. *)
Lemma inspect_string_spec (mem : Memory) (p : Z) :
  inspect_string mem p =
    match read_bytes mem p 32 with
    | Some u8 =>
        if forallb printable (until_nul u8) && (2 <? length (until_nul u8))%nat
        then Some (string_note (string_of_list_byte (until_nul u8)))
        else None
    | None => None
    end.
Proof.
  unfold inspect_string, readByteArray. change (STR_PEEK_LEN CONFIG) with 32%nat.
  destruct (read_bytes mem p 32) as [u8|] eqn:Hr; [|reflexivity].
  destruct (scan_spec u8 0) as [H1 H2].
  destruct (scan u8 0) as [isString len]. cbn [fst snd] in *. subst isString.
  destruct (forallb printable (until_nul u8)) eqn:Hp; [|reflexivity].
  rewrite (H2 eq_refl). cbn [andb Nat.add].
  destruct (2 <? length (until_nul u8))%nat; [|reflexivity].
  unfold readUtf8String.
  pose proof (until_nul_length u8) as Hle.
  rewrite (read_bytes_length _ _ _ _ Hr) in Hle.
  rewrite (read_bytes_take mem 32 p u8 _ Hr Hle).
  now rewrite until_nul_take, until_nul_idem.
Qed.

Lemma inspect_pointer_spec (mem : Memory) (p : Z) :
  inspect_pointer mem p =
    match read_bytes mem p 8 with
    | Some w => if isSafePointer (Some (le_combine w)) then pointer_note (le_combine w)
                else ""
    | None => ""
    end.
Proof. unfold inspect_pointer, readPointer. now destruct (read_bytes mem p 8). Qed.

Lemma word_unreadable_peek_unreadable (mem : Memory) (p : Z) :
  read_bytes mem p 8 = None -> read_bytes mem p 32 = None.
Proof.
  intros H8. destruct (read_bytes mem p 32) as [u8|] eqn:H32; [|reflexivity].
  rewrite (read_bytes_take mem 32 p u8 8 H32) in H8 by lia. discriminate.
Qed.

(** C8 as stated fails: at 0x20ff8 in [page_memory] the 32-byte read runs
    off the readable page and fails, yet the annotation is not empty,
    because the one-word read that follows succeeds. *)
Lemma inspectMemory_failed_peek_not_empty :
  ~ (forall (mem : Memory) (p : Z),
        readByteArray mem p 32 = Throw \/ readPointer mem p = Throw ->
        inspectMemory mem (Some p) = "").
Proof.
  intros H. specialize (H page_memory 0x20ff8 (or_introl eq_refl)).
  vm_compute in H. discriminate.
Qed.

(** C8, amended.  [inspectMemory] is total (it never throws).  It gives
    the empty annotation when the value fails [isSafePointer], and when the
    one-word read at the value fails.  For a safe pointer whose 32 bytes
    are readable, with the bytes before the first NUL (or all 32) printable
    and more than 2 of them, it gives the quoted string of exactly those
    bytes.  In every other case of a safe pointer, also when the 32-byte
    read fails, the answer is decided by the one word at the value: the
    points-to annotation of that word when it passes [isSafePointer],
    without inspecting the word any further, and the empty annotation
    otherwise. *)
Theorem inspectMemory_cases (mem : Memory) (ptrVal : option Z) :
  (isSafePointer ptrVal = false -> inspectMemory mem ptrVal = "") /\
  (forall p, ptrVal = Some p -> readPointer mem p = Throw ->
             inspectMemory mem ptrVal = "") /\
  (forall p u8, ptrVal = Some p -> isSafePointer ptrVal = true ->
     read_bytes mem p 32 = Some u8 ->
     forallb printable (until_nul u8) = true -> (2 < length (until_nul u8))%nat ->
     inspectMemory mem ptrVal = string_note (string_of_list_byte (until_nul u8))) /\
  (forall p, ptrVal = Some p -> isSafePointer ptrVal = true ->
     (read_bytes mem p 32 = None \/
      exists u8, read_bytes mem p 32 = Some u8 /\
                 (forallb printable (until_nul u8) = false \/
                  (length (until_nul u8) <= 2)%nat)) ->
     inspectMemory mem ptrVal =
       match readPointer mem p with
       | Ok pointed =>
           if isSafePointer (Some pointed) then pointer_note pointed else ""
       | Throw => ""
       end).
Proof.
  split; [|split; [|split]].
  - intros H. unfold inspectMemory. now rewrite H.
  - intros p -> Hw. unfold inspectMemory.
    destruct (isSafePointer (Some p)); [|reflexivity]. cbn [negb].
    unfold readPointer in Hw.
    destruct (read_bytes mem p 8) eqn:H8; [discriminate|].
    rewrite inspect_string_spec, (word_unreadable_peek_unreadable _ _ H8).
    rewrite inspect_pointer_spec, H8. reflexivity.
  - intros p u8 -> Hs Hr Hp Hl. unfold inspectMemory. rewrite Hs. cbn [negb].
    rewrite inspect_string_spec, Hr, Hp.
    apply Nat.ltb_lt in Hl. now rewrite Hl.
  - intros p -> Hs Hno. unfold inspectMemory. rewrite Hs. cbn [negb].
    rewrite inspect_string_spec.
    destruct Hno as [-> | (u8 & -> & [-> | Hl])]; try reflexivity.
    apply Nat.ltb_ge in Hl. rewrite Hl, andb_false_r. reflexivity.
Qed.

(** Three runs of [inspectMemory]: a string, a pointer read after a failed
    32-byte read, nothing readable. *)
Lemma inspectMemory_cases_witness :
  inspectMemory page_memory (Some 0x20000) = string_note "OK!" /\
  inspectMemory page_memory (Some 0x20ff8) = pointer_note 0x30000 /\
  inspectMemory no_memory (Some 0x20000) = "".
Proof.
  destruct (inspectMemory_cases page_memory (Some 0x20000)) as (_ & _ & Hs & _).
  destruct (inspectMemory_cases page_memory (Some 0x20ff8)) as (_ & _ & _ & Hp).
  destruct (inspectMemory_cases no_memory (Some 0x20000)) as (_ & He & _).
  split; [|split].
  - exact (Hs 0x20000 _ eq_refl eq_refl eq_refl eq_refl ltac:(vm_compute; lia)).
  - exact (Hp 0x20ff8 eq_refl eq_refl (or_introl eq_refl)).
  - exact (He 0x20000 eq_refl eq_refl).
Defined.

(** ** The memory operand of [formatOperandDetails] *)

Lemma truthy_string_iff (s : string) : JS.truthy_string s = true <-> s <> "".
Proof.
  unfold JS.truthy_string. rewrite negb_true_iff. apply String.eqb_neq.
Qed.

Lemma mem_content_spec (mem : Memory) (a : Z) :
  mem_content mem a =
    match readPointer mem a with
    | Ok loadedVal => loaded_note mem loadedVal
    | Throw => ""
    end.
Proof. reflexivity. Qed.

Ltac string_shape :=
  unfold symbolic; cbn [base_display fst snd mbind completion_bind];
  rewrite ?append_assoc, ?append_empty_r; reflexivity.

(** C6 as stated fails: with base x0 resolved to 0x20000 and nothing
    readable, the load at x0+8 fails, yet the operand is printed with the
    effective address 0x20008 and not as unavailable. *)
Lemma format_mem_failed_load_shows_address :
  ~ (forall (g : Globals) (mem : Memory) (context : CpuContext)
            (base : option string) (disp : Z),
        (forall bv, ~ base_resolves g context base bv) \/
        (exists bv, base_resolves g context base bv /\
                    readPointer mem (NativePointer.add bv disp) = Throw) ->
        format_mem g mem context base disp = Ok (symbolic base disp +:+ "N/A")).
Proof.
  intros H.
  specialize (H demo_globals no_memory demo_context (Some "x0") 8).
  assert (Hres : base_resolves demo_globals demo_context (Some "x0") 0x20000).
  { exists "x0". repeat split. discriminate. }
  specialize (H (or_intror (ex_intro _ 0x20000 (conj Hres eq_refl)))).
  vm_compute in H. discriminate.
Qed.

(** C6, amended.  A memory operand is always printed with its symbolic
    form [[base+disp]=].  When the base register does not resolve to a
    pointer the address is shown as N/A and nothing follows.  When it
    resolves to [bv], the effective address [bv + disp] is shown; if the
    one-word load there succeeds it is followed by the loaded value and
    the memory inspection of that value, and if the load fails nothing
    follows the address. *)
Theorem format_mem_cases (g : Globals) (mem : Memory) (context : CpuContext)
    (base : option string) (disp : Z) :
  ((forall bv, ~ base_resolves g context base bv) ->
   format_mem g mem context base disp = Ok (symbolic base disp +:+ "N/A")) /\
  (forall bv, base_resolves g context base bv ->
     let calculatedAddr := NativePointer.add bv disp in
     (readPointer mem calculatedAddr = Throw ->
      format_mem g mem context base disp =
        Ok (symbolic base disp +:+ NativePointer.toString calculatedAddr)) /\
     (forall loadedVal, readPointer mem calculatedAddr = Ok loadedVal ->
      format_mem g mem context base disp =
        Ok (symbolic base disp +:+ NativePointer.toString calculatedAddr
              +:+ (" " +:+ C.BLUE +:+ "[val=" +:+ NativePointer.toString loadedVal
                       +:+ "]" +:+ C.RESET)
              +:+ inspectMemory mem (Some loadedVal)))).
Proof.
  split.
  - intros Hno. unfold format_mem.
    destruct base as [b|]; cbn [base_truthy]; [|string_shape].
    destruct (JS.truthy_string b) eqn:Hb; [|string_shape].
    apply truthy_string_iff in Hb.
    destruct (getRegisterValue_ok g context b) as (val & Hval).
    cbn [base_display]. rewrite Hval.
    destruct val as [bv| |s]; try string_shape.
    exfalso. apply (Hno bv). exists b. auto.
  - intros bv (b & -> & Hb & Hval) calculatedAddr.
    apply truthy_string_iff in Hb.
    unfold format_mem. cbn [base_truthy base_display].
    rewrite Hb, Hval. cbn [mbind completion_bind fst snd].
    fold calculatedAddr. rewrite mem_content_spec.
    split.
    + intros ->. string_shape.
    + intros loadedVal ->. unfold loaded_note. string_shape.
Qed.

(** The three cases on concrete operands: an unresolved base, a failed
    load, a successful load. *)
Lemma format_mem_cases_witness :
  format_mem demo_globals page_memory demo_context (Some "q0") 0 = Ok "[q0+0]=N/A" /\
  format_mem demo_globals no_memory demo_context (Some "x0") 8 = Ok "[x0+8]=0x20008" /\
  format_mem demo_globals page_memory demo_context (Some "x0") 4088 =
    Ok ("[x0+4088]=0x20ff8" +:+ loaded_note page_memory 0x30000).
Proof.
  destruct (format_mem_cases demo_globals page_memory demo_context (Some "q0") 0)
    as [Hna _].
  destruct (format_mem_cases demo_globals no_memory demo_context (Some "x0") 8)
    as [_ Hfail].
  destruct (format_mem_cases demo_globals page_memory demo_context (Some "x0") 4088)
    as [_ Hload].
  assert (Hres : base_resolves demo_globals demo_context (Some "x0") 0x20000).
  { exists "x0". repeat split. discriminate. }
  split; [|split].
  - apply Hna. intros bv (b & [= <-] & _ & Hv). vm_compute in Hv. discriminate.
  - exact (proj1 (Hfail 0x20000 Hres) eq_refl).
  - exact (proj2 (Hload 0x20000 Hres) 0x30000 eq_refl).
Defined.

(** ** The rendering callout *)

Lemma bump_eq (lc : gmap string Z) (k : string) :
  bump lc k = <[k := default 0 (lc !! k) + 1]> lc.
Proof.
  unfold bump. destruct (lc !! k) as [n|] eqn:E; cbn [truthy_count default negb].
  - destruct (n =? 0) eqn:En; cbn [negb].
    + apply Z.eqb_eq in En. subst n.
      now rewrite lookup_insert_eq, insert_insert_eq.
    + now rewrite E.
  - now rewrite lookup_insert_eq, insert_insert_eq.
Qed.

Lemma hit_count_eq (st : TraceState) (k : string) :
  hit_count st k = default 0 (loopCounter st !! k) + 1.
Proof. unfold hit_count. now rewrite bump_eq, lookup_insert_eq. Qed.

Lemma rem_100_eqb (c : Z) : (Z.rem c 100 =? 0) = (c mod 100 =? 0).
Proof.
  destruct (Z.rem c 100 =? 0) eqn:E1, (c mod 100 =? 0) eqn:E2; try reflexivity.
  - apply Z.eqb_eq in E1. apply Z.eqb_neq in E2.
    apply Z.rem_mod_eq_0 in E1; [contradiction | lia].
  - apply Z.eqb_neq in E1. apply Z.eqb_eq in E2.
    apply Z.rem_mod_eq_0 in E2; [contradiction | lia].
Qed.

(** The test of the early [return] is the negation of [renders]. *)
Lemma gate_renders (count : Z) :
  (count >? LOOP_THRESHOLD CONFIG) && negb (Z.rem count 100 =? 0)
  = negb (renders count).
Proof.
  unfold renders. change (LOOP_THRESHOLD CONFIG) with 10.
  rewrite rem_100_eqb, Z.gtb_ltb, Z.ltb_antisym.
  destruct (count <=? 10), (count mod 100 =? 0); reflexivity.
Qed.

Lemma watched_registers_defined (context : CpuContext) (r : string) :
  In r GENERAL_REGS -> exists val, context_get context r = Some val.
Proof.
  unfold GENERAL_REGS. cbn [In].
  intros [<-|[<-|[<-|[<-|[<-|[<-|[<-|[<-|[]]]]]]]]]; eexists; reflexivity.
Qed.

Lemma diff_loop_ok (context : CpuContext) (regs : list string) :
  (forall r, In r regs -> In r GENERAL_REGS) ->
  forall lastRegs changed,
    exists changed', snd (diff_loop context regs lastRegs changed) = Ok changed'.
Proof.
  induction regs as [|r rest IH]; intros Hin lastRegs changed; cbn [diff_loop].
  - eauto.
  - destruct (watched_registers_defined context r) as [val ->]; [apply Hin; now left|].
    apply IH. intros r' Hr'. apply Hin. now right.
Qed.

Lemma getDiffRegisters_ok (context : CpuContext) (lastRegs : gmap string string) :
  exists diff, snd (getDiffRegisters context lastRegs) = Ok diff.
Proof.
  unfold getDiffRegisters.
  destruct (diff_loop_ok context GENERAL_REGS (fun _ H => H) lastRegs []) as [ch Hch].
  destruct (diff_loop context GENERAL_REGS lastRegs []) as [regs' c].
  cbn [snd] in Hch. subst c. eauto.
Qed.

Lemma format_operand_ok (g : Globals) (mem : Memory) (context : CpuContext)
    (op : Operand) :
  exists pushed, format_operand g mem context op = Ok pushed.
Proof.
  destruct op as [value|base disp|value|]; cbn [format_operand]; eauto.
  - unfold format_reg.
    destruct (getRegisterValue_ok g context value) as (val & ->).
    cbn [mbind completion_bind]. eauto.
  - unfold format_mem. destruct (base_truthy base); cbn [mbind completion_bind]; eauto.
    destruct (getRegisterValue_ok g context (base_display base)) as (val & ->).
    cbn [mbind completion_bind]. destruct val; cbn [mbind completion_bind]; eauto.
Qed.

Lemma format_operands_ok (g : Globals) (mem : Memory) (context : CpuContext)
    (ops : list Operand) :
  forall details, exists all, format_operands g mem context ops details = Ok all.
Proof.
  induction ops as [|op rest IH]; intros details; cbn [format_operands]; eauto.
  destruct (format_operand_ok g mem context op) as [pushed ->].
  cbn [mbind completion_bind]. apply IH.
Qed.

(** No read failure aborts the formatting of the operands. *)
Lemma formatOperandDetails_ok (g : Globals) (mem : Memory)
    (instruction : Instruction) (context : CpuContext) :
  exists s, formatOperandDetails g mem instruction context = Ok s.
Proof.
  unfold formatOperandDetails.
  destruct (format_operands_ok g mem context (operands instruction) []) as [all ->].
  cbn [mbind completion_bind]. eauto.
Qed.

Lemma render_line_truthy (module : Module_) (context : CpuContext)
    (currentInstr : Instruction) (operandDetails : string) :
  JS.truthy_string (render_line module context currentInstr operandDetails) = true.
Proof. reflexivity. Qed.

(** The steps after the gate complete normally: the register renderings
    are replaced, the pending line (if any) is printed with the diff, and
    the rendering of the current instruction becomes the pending line. *)
Lemma render_steps_ok (h : Host) (hit : Hit) (st : TraceState) :
  render_steps (hit_globals hit) h (hit_mem hit) (hit_module hit) (hit_context hit) st
  = (set_lastInstructionLog (set_lastRegs st (regs_after hit (lastRegs st)))
       (line_of h hit),
     flush_pending (lastInstructionLog st) (diff_of hit (lastRegs st)),
     Ok tt).
Proof.
  unfold render_steps, regs_after, diff_of, line_of.
  destruct (getDiffRegisters_ok (hit_context hit) (lastRegs st)) as [diff Hd].
  destruct (getDiffRegisters (hit_context hit) (lastRegs st)) as [regs' c].
  cbn [fst snd] in *. subst c. cbn [completed].
  destruct (formatOperandDetails_ok (hit_globals hit) (hit_mem hit)
              (Instruction_parse h (pc (hit_context hit))) (hit_context hit)) as [s ->].
  reflexivity.
Qed.

Lemma callout_eq (h : Host) (hit : Hit) (st : TraceState) :
  let st1 := set_loopCounter st (bump (loopCounter st) (pcKey_of hit)) in
  callout_at h hit st =
    if renders (hit_count st (pcKey_of hit))
    then render_steps (hit_globals hit) h (hit_mem hit) (hit_module hit)
           (hit_context hit) st1
    else (st1, [], Ok tt).
Proof.
  intros st1. unfold callout_at, callout. fold (pcKey_of hit). fold st1.
  change (loopCounter st1) with (bump (loopCounter st) (pcKey_of hit)).
  fold (hit_count st (pcKey_of hit)).
  rewrite gate_renders. now destruct (renders _).
Qed.

Lemma flush_pending_some (l suffix : string) :
  l <> "" -> flush_pending (Some l) suffix = [l +:+ suffix].
Proof.
  intros Hl. unfold flush_pending.
  now rewrite (proj2 (truthy_string_iff l) Hl).
Qed.

Lemma flush_pending_ok (st : TraceState) (suffix : string) :
  pending_ok st ->
  flush_pending (lastInstructionLog st) suffix =
    match lastInstructionLog st with
    | Some l => [l +:+ suffix]
    | None => []
    end.
Proof.
  unfold pending_ok. destruct (lastInstructionLog st) as [l|]; [|reflexivity].
  apply flush_pending_some.
Qed.

Lemma render_line_nonempty (module : Module_) (context : CpuContext)
    (currentInstr : Instruction) (operandDetails : string) :
  render_line module context currentInstr operandDetails <> "".
Proof. apply truthy_string_iff, render_line_truthy. Qed.

Lemma callout_counter (h : Host) (hit : Hit) (st : TraceState) :
  loopCounter (fst (fst (callout_at h hit st)))
  = <[pcKey_of hit := hit_count st (pcKey_of hit)]> (loopCounter st).
Proof.
  pose proof (callout_eq h hit st) as H. cbv zeta in H. rewrite H.
  destruct (renders (hit_count st (pcKey_of hit))).
  - rewrite render_steps_ok. cbn. now rewrite bump_eq, hit_count_eq.
  - cbn. now rewrite bump_eq, hit_count_eq.
Qed.

(** The counter of a program counter grows by one at each of its hits,
    rendered or not. *)
Lemma run_counter (h : Host) (k : string) (hits : list Hit) :
  forall st,
    default 0 (loopCounter (fst (run_callouts h hits st)) !! k)
    = default 0 (loopCounter st !! k) + hits_at k hits.
Proof.
  induction hits as [|hit rest IH]; intros st; cbn [run_callouts hits_at fst].
  - lia.
  - pose proof (callout_counter h hit st) as Hc.
    destruct (callout_at h hit st) as [[st1 out1] c1]. cbn [fst] in Hc.
    specialize (IH st1). destruct (run_callouts h rest st1) as [st2 out2].
    cbn [fst] in *. rewrite IH, Hc.
    destruct (String.eqb_spec (pcKey_of hit) k) as [->|Hne].
    + rewrite lookup_insert_eq, hit_count_eq. cbn [from_option id]. lia.
    + rewrite lookup_insert_ne by exact Hne. lia.
Qed.

(** C1.  The callout increments the counter of the current program
    counter (a missing or zero entry counts as 0), and with [count] the
    value after the increment it runs the rendering steps iff
    [count <= 10] or [count] is a multiple of 100.  When it runs them they
    complete normally: the register renderings are replaced, the pending
    line is flushed with the diff and the new line becomes pending.
    Otherwise nothing is printed and only the counter has changed.  Within
    one activation the count of a hit is the number of hits of the same
    program counter so far, this one included. *)
Theorem loop_gate (g : Globals) (h : Host) (mem : Memory) (module : Module_)
    (context : CpuContext) (stalkerCtx : TraceState) :
  let pcKey := NativePointer.toString (pc context) in
  let count := default 0 (loopCounter stalkerCtx !! pcKey) + 1 in
  let st1 := set_loopCounter stalkerCtx (<[pcKey := count]> (loopCounter stalkerCtx)) in
  let hit := hit_at g mem module context in
  callout g h mem module context stalkerCtx =
    (if (count <=? 10) || (count mod 100 =? 0)
     then render_steps g h mem module context st1
     else (st1, [], Ok tt)) /\
  render_steps g h mem module context st1 =
    (set_lastInstructionLog (set_lastRegs st1 (regs_after hit (lastRegs stalkerCtx)))
       (line_of h hit),
     flush_pending (lastInstructionLog stalkerCtx) (diff_of hit (lastRegs stalkerCtx)),
     Ok tt) /\
  (forall t before,
     stalkerCtx = fst (run_callouts h before (onEnter_state t)) ->
     count = hits_at pcKey before + 1).
Proof.
  intros pcKey count st1 hit. split; [|split].
  - pose proof (callout_eq h hit stalkerCtx) as H. cbv zeta in H.
    unfold callout_at in H. cbn [hit_globals hit_mem hit_module hit_context hit hit_at] in H.
    rewrite H. change (pcKey_of hit) with pcKey.
    rewrite hit_count_eq, bump_eq. reflexivity.
  - exact (render_steps_ok h hit st1).
  - intros t before ->. unfold count. rewrite run_counter. reflexivity.
Qed.

(** The eleventh hit of one program counter in an activation is
    suppressed: the ten hits before it leave the count at 10. *)
Lemma loop_gate_witness :
  callout demo_globals demo_host no_memory demo_module (demo_regs 0x4000a3c 0)
    (fst (run_callouts demo_host (repeat (demo_hit 0x4000a3c 0) 10) (onEnter_state 7)))
  = (set_loopCounter
       (fst (run_callouts demo_host (repeat (demo_hit 0x4000a3c 0) 10) (onEnter_state 7)))
       {[ "0x4000a3c" := 11 ]},
     [], Ok tt).
Proof.
  destruct (loop_gate demo_globals demo_host no_memory demo_module
              (demo_regs 0x4000a3c 0)
              (fst (run_callouts demo_host (repeat (demo_hit 0x4000a3c 0) 10)
                      (onEnter_state 7))))
    as (Hcall & _ & Hcount).
  rewrite Hcall. rewrite (Hcount 7 _ eq_refl).
  vm_compute. reflexivity.
Defined.

(** The sample counts of the specification. *)
Example loop_gate_samples :
  map renders [1; 2; 9; 10; 11; 12; 99; 100; 101; 199; 200; 201]
  = [true; true; true; true; false; false; false; true; false; false; true; false].
Proof. reflexivity. Qed.

Lemma callout_suppressed (h : Host) (hit : Hit) (st : TraceState) :
  renders (hit_count st (pcKey_of hit)) = false ->
  callout_at h hit st =
    (set_loopCounter st (<[pcKey_of hit := hit_count st (pcKey_of hit)]> (loopCounter st)),
     [], Ok tt).
Proof.
  intros Hr. pose proof (callout_eq h hit st) as H. cbv zeta in H.
  rewrite H, Hr, bump_eq, hit_count_eq. reflexivity.
Qed.

Lemma callout_rendered (h : Host) (hit : Hit) (st : TraceState) :
  renders (hit_count st (pcKey_of hit)) = true ->
  callout_at h hit st =
    (set_lastInstructionLog
       (set_lastRegs
          (set_loopCounter st
             (<[pcKey_of hit := hit_count st (pcKey_of hit)]> (loopCounter st)))
          (regs_after hit (lastRegs st)))
       (line_of h hit),
     flush_pending (lastInstructionLog st) (diff_of hit (lastRegs st)),
     Ok tt).
Proof.
  intros Hr. pose proof (callout_eq h hit st) as H. cbv zeta in H.
  rewrite H, Hr, render_steps_ok, bump_eq, hit_count_eq. reflexivity.
Qed.

Lemma run_suppressed (h : Host) (hits : list Hit) :
  forall st, passing (loopCounter st) hits = [] ->
  exists st',
    run_callouts h hits st = (st', []) /\
    tid st' = tid st /\ lastRegs st' = lastRegs st /\
    lastInstructionLog st' = lastInstructionLog st.
Proof.
  induction hits as [|hit rest IH]; intros st Hp; cbn [run_callouts].
  - eauto.
  - cbn [passing] in Hp. rewrite <- hit_count_eq in Hp.
    destruct (renders (hit_count st (pcKey_of hit))) eqn:Hr; [discriminate|].
    rewrite (callout_suppressed h hit st Hr).
    destruct (IH (set_loopCounter st
                    (<[pcKey_of hit := hit_count st (pcKey_of hit)]> (loopCounter st))) Hp)
      as (st' & -> & Ht & Hl & Hpend).
    exists st'. auto.
Qed.

(** Deferred printing over a whole run, from any state whose pending slot
    is well formed. *)
Lemma run_deferred (h : Host) (hits : list Hit) :
  forall st, pending_ok st ->
    let '(st', out) := run_callouts h hits st in
    pending_ok st' /\
    out ++ flush_pending (lastInstructionLog st') ""
    = deferred_lines h (lastInstructionLog st) (lastRegs st)
        (passing (loopCounter st) hits).
Proof.
  induction hits as [|hit rest IH]; intros st Hok; cbn [run_callouts passing].
  - split; [exact Hok|]. cbn [app deferred_lines].
    rewrite flush_pending_ok by exact Hok.
    destruct (lastInstructionLog st); [now rewrite append_empty_r | reflexivity].
  - rewrite <- hit_count_eq.
    destruct (renders (hit_count st (pcKey_of hit))) eqn:Hr.
    + rewrite (callout_rendered h hit st Hr).
      match goal with
      | |- context [run_callouts h rest ?s] =>
          specialize (IH s (render_line_nonempty _ _ _ _));
          destruct (run_callouts h rest s) as [st2 out2]
      end.
      destruct IH as [Hok2 IH]. split; [exact Hok2|].
      cbn [deferred_lines]. rewrite <- app_assoc, IH.
      rewrite flush_pending_ok by exact Hok. reflexivity.
    + rewrite (callout_suppressed h hit st Hr).
      match goal with
      | |- context [run_callouts h rest ?s] =>
          specialize (IH s Hok);
          destruct (run_callouts h rest s) as [st2 out2]
      end.
      exact IH.
Qed.

Lemma gate_closed_renders (st : TraceState) (hit : Hit) :
  gate_closed st hit = negb (renders (hit_count st (pcKey_of hit))).
Proof. apply gate_renders. Qed.

Lemma onEnter_pending_ok (t : Z) : pending_ok (onEnter_state t).
Proof. exact I. Qed.

Lemma run_pending_ok (h : Host) (hits : list Hit) (st : TraceState) :
  pending_ok st -> pending_ok (fst (run_callouts h hits st)).
Proof.
  intros Hok. pose proof (run_deferred h hits st Hok) as H.
  destruct (run_callouts h hits st) as [st' out]. exact (proj1 H).
Qed.

(** C2.  At a gate-passing callout the line left pending by the previous
    gate-passing hit, if there is one, is printed followed by the diff
    computed at this callout, and nothing else is printed; the rendering of
    the current instruction becomes the pending line.  [onLeave] prints the
    pending line, if any, alone, before its banner.  Hence one activation
    prints, between the two banners, exactly [deferred_lines] of its
    gate-passing hits: every line one gate-passing hit late, the last one
    on exit.  The pending slot of a state reached from [onEnter] is always
    well formed. *)
Theorem deferred_printing (h : Host) :
  (forall hit st, pending_ok st -> gate_closed st hit = false ->
     exists st',
       callout_at h hit st =
         (st',
          match lastInstructionLog st with
          | Some l => [l +:+ diff_of hit (lastRegs st)]
          | None => []
          end,
          Ok tt) /\
       lastInstructionLog st' = Some (line_of h hit) /\
       lastRegs st' = regs_after hit (lastRegs st)) /\
  (forall st retval, pending_ok st ->
     onLeave st retval =
       match lastInstructionLog st with Some l => [l] | None => [] end
         ++ [leave_banner retval]) /\
  (forall t hits retval,
     activation h t hits retval =
       [enter_banner t] ++ deferred_lines h None ∅ (passing ∅ hits)
         ++ [leave_banner retval]) /\
  (forall t hits, pending_ok (fst (run_callouts h hits (onEnter_state t)))).
Proof.
  split; [|split; [|split]].
  - intros hit st Hok Hgate.
    rewrite gate_closed_renders, negb_false_iff in Hgate.
    eexists. rewrite (callout_rendered h hit st Hgate).
    rewrite flush_pending_ok by exact Hok. repeat split.
  - intros st retval Hok. unfold onLeave.
    rewrite flush_pending_ok by exact Hok.
    destruct (lastInstructionLog st); [now rewrite append_empty_r | reflexivity].
  - intros t hits retval. unfold activation.
    pose proof (run_deferred h hits (onEnter_state t) (onEnter_pending_ok t)) as H.
    destruct (run_callouts h hits (onEnter_state t)) as [st out].
    destruct H as [_ H]. cbn [onEnter_state lastInstructionLog lastRegs loopCounter] in H.
    unfold onLeave. rewrite <- H, <- !app_assoc. reflexivity.
  - intros t hits. apply run_pending_ok, onEnter_pending_ok.
Qed.

(** The run [mov x0, #5; add x0, x0, x1; ret]: the line of [mov] carries
    the diff of x0 seen at [add] and is printed by the callout of [add];
    the line of [ret] is printed by [onLeave] without a diff. *)
Lemma deferred_printing_witness :
  activation demo_host 7 demo_hits 12 =
    [enter_banner 7;
     line_of demo_host (demo_hit 0x4000a3c 0)
       +:+ " | { " +:+ C.RED +:+ "x0=0x5" +:+ C.RESET +:+ " }";
     line_of demo_host (demo_hit 0x4000a40 5)
       +:+ " | { " +:+ C.RED +:+ "x0=0xc" +:+ C.RESET +:+ " }";
     line_of demo_host (demo_hit 0x4000a44 12);
     leave_banner 12].
Proof.
  destruct (deferred_printing demo_host) as (_ & _ & Hrun & _).
  rewrite (Hrun 7 demo_hits 12). vm_compute. reflexivity.
Defined.

Lemma run_all_suppressed (h : Host) (hits : list Hit) :
  forall st, all_suppressed h hits st = true ->
  exists st',
    run_callouts h hits st = (st', []) /\
    tid st' = tid st /\ lastRegs st' = lastRegs st /\
    lastInstructionLog st' = lastInstructionLog st.
Proof.
  induction hits as [|hit rest IH]; intros st Hs; cbn [run_callouts all_suppressed] in *.
  - eauto.
  - apply andb_true_iff in Hs as [Hg Hrest].
    rewrite gate_closed_renders, negb_true_iff in Hg.
    rewrite (callout_suppressed h hit st Hg) in *. cbn [fst] in Hrest.
    destruct (IH _ Hrest) as (st' & -> & Ht & Hl & Hp).
    exists st'. auto.
Qed.

(** C10.  A hit stopped by the gate prints nothing and changes the trace
    state only in the counter of its program counter, which becomes the
    incremented count; [tid], [lastRegs] and the pending line are the same.
    So after any run of suppressed hits, the next gate-passing callout
    prints the line that was pending before them, with the diff of its
    context against the register renderings stored before them. *)
Theorem suppressed_hit_frame (h : Host) (hit : Hit) (st : TraceState) :
  gate_closed st hit = true ->
  exists st',
    callout_at h hit st = (st', [], Ok tt) /\
    tid st' = tid st /\
    lastRegs st' = lastRegs st /\
    lastInstructionLog st' = lastInstructionLog st /\
    loopCounter st' =
      <[pcKey_of hit := default 0 (loopCounter st !! pcKey_of hit) + 1]> (loopCounter st) /\
    forall more, all_suppressed h more st' = true ->
      exists st'',
        run_callouts h more st' = (st'', []) /\
        lastRegs st'' = lastRegs st /\
        lastInstructionLog st'' = lastInstructionLog st /\
        forall nxt, gate_closed st'' nxt = false ->
          snd (fst (callout_at h nxt st'')) =
            flush_pending (lastInstructionLog st) (diff_of nxt (lastRegs st)).
Proof.
  intros Hg. rewrite gate_closed_renders, negb_true_iff in Hg.
  eexists. rewrite (callout_suppressed h hit st Hg), hit_count_eq.
  do 5 (split; [reflexivity|]).
  intros more Hmore.
  destruct (run_all_suppressed h more _ Hmore) as (st'' & Hrun & _ & Hl & Hp).
  exists st''. cbn [lastRegs lastInstructionLog set_loopCounter] in Hl, Hp.
  repeat (split; [assumption|]).
  intros nxt Hn. rewrite gate_closed_renders, negb_false_iff in Hn.
  rewrite (callout_rendered h nxt st'' Hn). cbn [fst snd]. now rewrite Hl, Hp.
Qed.

(** The eleventh hit of 0x4000a3c is suppressed, and the following first
    hit of 0x4000a40 prints the pending line of the tenth with the diff
    against the registers rendered at the tenth. *)
Lemma suppressed_hit_frame_witness :
  gate_closed demo_hot_state (demo_hit 0x4000a3c 3) = true /\
  exists st',
    callout_at demo_host (demo_hit 0x4000a3c 3) demo_hot_state = (st', [], Ok tt) /\
    lastRegs st' = lastRegs demo_hot_state /\
    lastInstructionLog st' = lastInstructionLog demo_hot_state /\
    loopCounter st' = {[ "0x4000a3c" := 11 ]} /\
    snd (fst (callout_at demo_host (demo_hit 0x4000a40 5) st')) =
      [line_of demo_host (demo_hit 0x4000a3c 0)
         +:+ " | { " +:+ C.RED +:+ "x0=0x5" +:+ C.RESET +:+ " }"].
Proof.
  assert (Hg : gate_closed demo_hot_state (demo_hit 0x4000a3c 3) = true)
    by (vm_compute; reflexivity).
  split; [exact Hg|].
  destruct (suppressed_hit_frame demo_host (demo_hit 0x4000a3c 3) demo_hot_state Hg)
    as (st' & Hc & _ & Hl & Hp & Hlc & Hnext).
  exists st'. split; [exact Hc|]. split; [exact Hl|]. split; [exact Hp|].
  split.
  - rewrite Hlc. apply map_eq. intros k.
    destruct (decide (k = "0x4000a3c")) as [->|Hk].
    + rewrite !lookup_insert_eq. reflexivity.
    + unfold pcKey_of. cbn [hit_context demo_hit hit_at demo_regs pc].
      change (NativePointer.toString 67111484) with "0x4000a3c".
      rewrite lookup_insert_ne by congruence.
      unfold demo_hot_state. cbn [loopCounter].
      rewrite !lookup_singleton_ne by congruence. reflexivity.
  - destruct (Hnext [] eq_refl) as (st'' & Hrun & Hl2 & Hp2 & Hout).
    cbn [run_callouts] in Hrun. injection Hrun as <-.
    rewrite (Hout (demo_hit 0x4000a40 5)).
    + vm_compute. reflexivity.
    + rewrite gate_closed_renders, hit_count_eq, Hlc.
      unfold pcKey_of. cbn [hit_context demo_hit hit_at demo_regs pc].
      rewrite lookup_insert_ne by (vm_compute; congruence).
      vm_compute. reflexivity.
Defined.

(** ** The transform callback *)

Lemma transform_loop_eq (g : Globals) (h : Host) (target : string)
    (rest : list Instruction) :
  forall instruction ops,
    transform_loop g h target instruction rest ops
    = ops ++ flat_map (transform_body g h target) (instruction :: rest).
Proof.
  induction rest as [|next rest IH]; intros instruction ops; cbn [transform_loop].
  - cbn [flat_map]. now rewrite app_nil_r.
  - rewrite IH. cbn [flat_map]. now rewrite <- app_assoc.
Qed.

Lemma transform_body_cases (g : Globals) (h : Host) (target : string) (i : Instruction) :
  transform_body g h target i =
    match in_target h target i with
    | Some m => if cm g then [PutCalloutC; PutCalloutJS m; Keep i]
                else [PutCalloutJS m; Keep i]
    | None => [Keep i]
    end.
Proof.
  unfold transform_body, in_target.
  destruct (getModuleByAddressSafe h (address i)) as [m|]; [|reflexivity].
  destruct (String.eqb (name m) target); [|reflexivity].
  now destruct (cm g).
Qed.

Lemma kept_transform_body (g : Globals) (h : Host) (target : string) (i : Instruction) :
  kept (transform_body g h target i) = [i].
Proof.
  rewrite transform_body_cases.
  destruct (in_target h target i); [destruct (cm g)|]; reflexivity.
Qed.

Lemma kept_app (a b : list IteratorOp) : kept (a ++ b) = kept a ++ kept b.
Proof. unfold kept. apply flat_map_app. Qed.

Lemma kept_flat_map (g : Globals) (h : Host) (target : string) (block : list Instruction) :
  kept (flat_map (transform_body g h target) block) = block.
Proof.
  induction block as [|i rest IH]; [reflexivity|].
  cbn [flat_map]. now rewrite kept_app, kept_transform_body, IH.
Qed.

(** C9 as stated fails: when the CModule did not compile ([cm] is null)
    an instruction of the target module gets the rendering callout only,
    with no capture callout before it. *)
Lemma transform_without_bridge :
  ~ (forall (g : Globals) (h : Host) (target : string)
            (first : Instruction) (rest : list Instruction),
        transform g h target (first :: rest)
        = Ok (flat_map (policy_ops h target) (first :: rest))).
Proof.
  intros H.
  specialize (H (init false None) demo_host "libnative-lib.so"
                (Instruction_parse demo_host 0x4000a3c) []).
  vm_compute in H. discriminate.
Qed.

(** C9, amended.  On a block of at least one instruction [transform]
    completes normally and treats the instructions one by one, in order.
    Every instruction is kept, inside the target module or not, so the
    kept instructions are the block itself.  For an instruction of the
    target module the rendering callout is inserted before the
    instruction, preceded by the capture callout exactly when the CModule
    is available; an instruction outside the target module gets no
    callout.  With the CModule available the operations are those of the
    stated policy. *)
Theorem transform_policy (g : Globals) (h : Host) (target : string)
    (first : Instruction) (rest : list Instruction) :
  exists ops,
    transform g h target (first :: rest) = Ok ops /\
    ops = flat_map (transform_body g h target) (first :: rest) /\
    kept ops = first :: rest /\
    (forall i, transform_body g h target i =
       match in_target h target i with
       | Some m => if cm g then [PutCalloutC; PutCalloutJS m; Keep i]
                   else [PutCalloutJS m; Keep i]
       | None => [Keep i]
       end) /\
    (cm g = true -> ops = flat_map (policy_ops h target) (first :: rest)).
Proof.
  eexists. split; [reflexivity|]. rewrite transform_loop_eq. cbn [app].
  split; [reflexivity|]. split; [apply kept_flat_map|].
  split; [apply transform_body_cases|].
  intros Hcm. apply flat_map_ext. intros i.
  rewrite transform_body_cases. unfold policy_ops.
  rewrite Hcm. now destruct (in_target h target i).
Qed.

(** A block of two instructions, the first in the target module, with the
    CModule available and without it. *)
Lemma transform_policy_witness :
  transform demo_globals demo_host "libnative-lib.so"
      [Instruction_parse demo_host 0x4000a3c; Instruction_parse demo_host 0x5000000]
    = Ok [PutCalloutC; PutCalloutJS demo_module;
          Keep (Instruction_parse demo_host 0x4000a3c);
          Keep (Instruction_parse demo_host 0x5000000)] /\
  transform (init false None) demo_host "libnative-lib.so"
      [Instruction_parse demo_host 0x4000a3c; Instruction_parse demo_host 0x5000000]
    = Ok [PutCalloutJS demo_module;
          Keep (Instruction_parse demo_host 0x4000a3c);
          Keep (Instruction_parse demo_host 0x5000000)].
Proof.
  split.
  - destruct (transform_policy demo_globals demo_host "libnative-lib.so"
                (Instruction_parse demo_host 0x4000a3c)
                [Instruction_parse demo_host 0x5000000])
      as (ops & Ht & Hops & _).
    rewrite Ht, Hops. vm_compute. reflexivity.
  - destruct (transform_policy (init false None) demo_host "libnative-lib.so"
                (Instruction_parse demo_host 0x4000a3c)
                [Instruction_parse demo_host 0x5000000])
      as (ops & Ht & Hops & _).
    rewrite Ht, Hops. vm_compute. reflexivity.
Defined.

(** * Further properties *)

(** ** [getDiffRegisters] *)

Lemma changed_of_insert (context : CpuContext) (lastRegs : gmap string string)
    (k s : string) (regs : list string) :
  ~ In k regs ->
  changed_of context (<[k := s]> lastRegs) regs = changed_of context lastRegs regs.
Proof.
  induction regs as [|r rest IH]; intros Hk; [reflexivity|].
  cbn [changed_of]. rewrite lookup_insert_ne by (intros ->; apply Hk; now left).
  rewrite IH by (intros H; apply Hk; now right). reflexivity.
Qed.

(** The loop, which overwrites [lastRegs] as it goes, reports the
    registers that differ from the map it was given. *)
Lemma diff_loop_spec (context : CpuContext) (regs : list string) :
  List.NoDup regs -> (forall r, In r regs -> In r GENERAL_REGS) ->
  forall lastRegs changed,
    diff_loop context regs lastRegs changed =
      (fold_left (fun m r => <[r := rendering context r]> m) regs lastRegs,
       Ok (changed ++ changed_of context lastRegs regs)).
Proof.
  induction regs as [|r rest IH]; intros Hnd Hin lastRegs changed.
  - cbn. now rewrite app_nil_r.
  - apply List.NoDup_cons_iff in Hnd as [Hr Hnd].
    cbn [diff_loop fold_left changed_of].
    destruct (watched_registers_defined context r) as [val Hval]; [apply Hin; now left|].
    assert (Hrend : rendering context r = NativePointer.toString val)
      by (unfold rendering; now rewrite Hval).
    rewrite Hval, <- Hrend.
    rewrite IH by (auto; intros r' Hr'; apply Hin; now right).
    rewrite changed_of_insert by exact Hr.
    destruct (decide (lastRegs !! r = Some (rendering context r)));
      cbn [app]; now rewrite <- ?app_assoc.
Qed.

Lemma GENERAL_REGS_NoDup : List.NoDup GENERAL_REGS.
Proof.
  unfold GENERAL_REGS.
  repeat (apply List.NoDup_cons; [cbn [In]; intuition discriminate|]).
  apply List.NoDup_nil.
Qed.

Lemma getDiffRegisters_eq (context : CpuContext) (lastRegs : gmap string string) :
  getDiffRegisters context lastRegs =
    (fold_left (fun m r => <[r := rendering context r]> m) GENERAL_REGS lastRegs,
     Ok (diff_note (changed_of context lastRegs GENERAL_REGS))).
Proof.
  unfold getDiffRegisters.
  rewrite (diff_loop_spec context GENERAL_REGS GENERAL_REGS_NoDup (fun _ H => H)).
  reflexivity.
Qed.

Lemma fold_insert_other (context : CpuContext) (regs : list string) :
  forall (m : gmap string string) (k : string),
    ~ In k regs ->
    fold_left (fun m r => <[r := rendering context r]> m) regs m !! k = m !! k.
Proof.
  induction regs as [|r rest IH]; intros m k Hk; cbn [fold_left]; [reflexivity|].
  rewrite IH by (intros H; apply Hk; now right).
  apply lookup_insert_ne. intros ->. apply Hk. now left.
Qed.

Lemma fold_insert_member (context : CpuContext) (regs : list string) :
  forall (m : gmap string string) (k : string),
    In k regs ->
    fold_left (fun m r => <[r := rendering context r]> m) regs m !! k
    = Some (rendering context k).
Proof.
  induction regs as [|r rest IH]; intros m k Hk; cbn [fold_left]; [destruct Hk|].
  destruct (in_dec string_dec k rest) as [Hin|Hout].
  - now apply IH.
  - destruct Hk as [->|Hk]; [|contradiction].
    rewrite fold_insert_other by exact Hout. apply lookup_insert_eq.
Qed.

(** X1.  After [getDiffRegisters] the map holds, for each of the eight
    watched registers, the rendering of its current value, whether it had
    changed or not; every other key of the map is untouched; and the call
    completes normally. *)
Theorem getDiffRegisters_stores (context : CpuContext) (lastRegs : gmap string string) :
  (exists diff, snd (getDiffRegisters context lastRegs) = Ok diff) /\
  (forall r val, In r GENERAL_REGS -> context_get context r = Some val ->
     fst (getDiffRegisters context lastRegs) !! r = Some (NativePointer.toString val)) /\
  (forall k, ~ In k GENERAL_REGS ->
     fst (getDiffRegisters context lastRegs) !! k = lastRegs !! k).
Proof.
  rewrite getDiffRegisters_eq. cbn [fst snd]. split; [eauto|]. split.
  - intros r val Hr Hval. rewrite fold_insert_member by exact Hr.
    unfold rendering. now rewrite Hval.
  - intros k Hk. now apply fold_insert_other.
Qed.

Lemma diff_note_empty (changed : list string) : diff_note changed = "" <-> changed = [].
Proof.
  unfold diff_note. destruct changed as [|c r]; cbn; [tauto|].
  split; discriminate.
Qed.

Lemma changed_of_empty (context : CpuContext) (lastRegs : gmap string string)
    (regs : list string) :
  changed_of context lastRegs regs = [] <->
  forall r, In r regs -> lastRegs !! r = Some (rendering context r).
Proof.
  induction regs as [|r rest IH]; cbn [changed_of].
  - split; [intros _ r []|reflexivity].
  - destruct (decide (lastRegs !! r = Some (rendering context r))) as [He|Hne]; cbn [app].
    + rewrite IH. split.
      * intros H r' [<-|Hr']; auto.
      * intros H r' Hr'. apply H. now right.
    + split; [discriminate|]. intros H. exfalso. apply Hne, H. now left.
Qed.

(** X2.  The diff annotation is empty exactly when the map already holds
    the current rendering of every watched register; a register missing
    from the map counts as changed. *)
Theorem getDiffRegisters_empty_iff (context : CpuContext)
    (lastRegs : gmap string string) :
  snd (getDiffRegisters context lastRegs) = Ok "" <->
  forall r, In r GENERAL_REGS ->
    exists val, context_get context r = Some val /\
                lastRegs !! r = Some (NativePointer.toString val).
Proof.
  rewrite getDiffRegisters_eq. cbn [snd]. split.
  - intros H.
    assert (H' : diff_note (changed_of context lastRegs GENERAL_REGS) = "")
      by congruence.
    clear H. rename H' into H. apply diff_note_empty in H.
    rewrite changed_of_empty in H.
    intros r Hr. destruct (watched_registers_defined context r Hr) as [val Hval].
    exists val. split; [exact Hval|]. rewrite (H r Hr). unfold rendering. now rewrite Hval.
  - intros H. f_equal. apply diff_note_empty, changed_of_empty.
    intros r Hr. destruct (H r Hr) as (val & Hval & Hl).
    rewrite Hl. unfold rendering. now rewrite Hval.
Qed.

(** X3.  Diffing the same context a second time reports nothing and leaves
    the map as the first call left it. *)
Theorem getDiffRegisters_again (context : CpuContext) (lastRegs : gmap string string) :
  getDiffRegisters context (fst (getDiffRegisters context lastRegs))
  = (fst (getDiffRegisters context lastRegs), Ok "").
Proof.
  rewrite !getDiffRegisters_eq. cbn [fst].
  set (m := fold_left _ GENERAL_REGS lastRegs).
  assert (Hm : forall r, In r GENERAL_REGS -> m !! r = Some (rendering context r))
    by (intros r Hr; now apply fold_insert_member).
  f_equal.
  - apply map_eq. intros k.
    destruct (in_dec string_dec k GENERAL_REGS) as [Hin|Hout].
    + rewrite fold_insert_member by exact Hin. now rewrite Hm.
    + now rewrite fold_insert_other.
  - f_equal. apply diff_note_empty, changed_of_empty. exact Hm.
Qed.

(** ** Register names *)

Lemma num_toString_inj (a b : Z) :
  0 <= a -> 0 <= b -> JS.num_toString a = JS.num_toString b -> a = b.
Proof.
  intros Ha Hb H.
  rewrite <- (parseInt_num_toString a Ha), <- (parseInt_num_toString b Hb).
  now rewrite H.
Qed.

Lemma find_none_all {A} (f : A -> bool) (l : list A) :
  (forall a, In a l -> f a = false) -> find f l = None.
Proof.
  induction l as [|a r IH]; intros H; [reflexivity|].
  cbn [find]. rewrite (H a) by now left. apply IH. intros b Hb. apply H. now right.
Qed.

(** The context has the properties x0 .. x28 and no x29, x30, ... *)
Lemma context_get_x (context : CpuContext) (n : nat) :
  context_get context ("x" +:+ JS.num_toString (Z.of_nat n)) =
    if (n <? 29)%nat then Some (x context n) else None.
Proof.
  destruct (n <? 29)%nat eqn:Hn.
  - apply Nat.ltb_lt in Hn.
    do 29 (destruct n as [|n]; [reflexivity|]). lia.
  - apply Nat.ltb_ge in Hn. unfold context_get.
    rewrite append_cons. change ("" +:+ ?s) with s. cbn [String.eqb Ascii.eqb Bool.eqb].
    rewrite find_none_all; [reflexivity|].
    intros k Hk%in_seq. apply String.eqb_neq. intros Heq.
    apply num_toString_inj in Heq; lia.
Qed.

Lemma land_32_mod (p : Z) : NativePointer.and p 0xFFFFFFFF = p mod 2 ^ 32.
Proof.
  unfold NativePointer.and. change 0xFFFFFFFF with (Z.ones 32).
  now rewrite Z.land_ones by lia.
Qed.

Lemma digit_not_z (c : ascii) : JS.is_digit c = true -> Ascii.eqb c "z" = false.
Proof.
  destruct c as [[] [] [] [] [] [] [] []]; try discriminate; reflexivity.
Qed.

(** X4.  A 32-bit alias w0 .. w28 is answered with the low 32 bits of the
    64-bit register of the same number, whatever the state of the bridge;
    w29, w30 and every higher number are unavailable, because the context
    names those registers fp and lr. *)
Theorem alias_lookup (g : Globals) (context : CpuContext) (n : nat) :
  getRegisterValue g context ("w" +:+ JS.num_toString (Z.of_nat n)) =
    Ok (if (n <? 29)%nat then VPtr (x context n mod 2 ^ 32) else VUndefined).
Proof.
  destruct (num_toString_digits (Z.of_nat n) ltac:(lia)) as (c & r & Hs & Hc & Hr).
  pose proof (context_get_x context n) as Hx.
  unfold getRegisterValue, alias_rule.
  rewrite append_cons. change ("" +:+ ?s) with s.
  cbn [JS.substring1].
  rewrite Hx. rewrite Hs.
  cbn [String.eqb Ascii.eqb Bool.eqb JS.startsWith String.prefix orb andb].
  rewrite (digit_not_z c Hc). cbn [orb].
  destruct (ascii_dec "w" "w") as [_|Hne]; [|congruence].
  destruct (n <? 29)%nat; [|reflexivity].
  now rewrite land_32_mod.
Qed.

(** X5.  A 64-bit register name x0 .. x28 is answered from the register
    array of the context, whatever the state of the bridge.  The names x29
    and x30 (and higher numbers) are unavailable: the frame pointer and the
    link register are answered only under the names fp and lr. *)
Theorem general_lookup (g : Globals) (context : CpuContext) (n : nat) :
  getRegisterValue g context ("x" +:+ JS.num_toString (Z.of_nat n)) =
    Ok (if (n <? 29)%nat then VPtr (x context n) else VUndefined) /\
  getRegisterValue g context "fp" = Ok (VPtr (fp context)) /\
  getRegisterValue g context "lr" = Ok (VPtr (lr context)) /\
  getRegisterValue g context "pc" = Ok (VPtr (pc context)).
Proof.
  split; [|repeat split].
  destruct (num_toString_digits (Z.of_nat n) ltac:(lia)) as (c & r & Hs & Hc & Hr).
  pose proof (context_get_x context n) as Hx.
  unfold getRegisterValue. rewrite Hx.
  rewrite append_cons. change ("" +:+ ?s) with s. rewrite Hs.
  cbn [String.eqb Ascii.eqb Bool.eqb JS.startsWith String.prefix orb andb
       simd_class existsb SIMD_PREFIXES].
  rewrite (digit_not_z c Hc). cbn [orb].
  destruct (ascii_dec "w" "x") as [Hwx|_]; [discriminate|].
  repeat match goal with
         | |- context [ascii_dec ?a ?b] => destruct (ascii_dec a b); [discriminate|]
         end.
  cbn [orb]. now destruct (n <? 29)%nat.
Qed.

Lemma simd_class_head (regName : string) :
  simd_class regName = true ->
  exists c r, regName = String c r /\
    (c = "q" \/ c = "d" \/ c = "s" \/ c = "h" \/ c = "b")%char.
Proof.
  destruct regName as [|c r]; [discriminate|].
  intros H. exists c, r. split; [reflexivity|].
  unfold simd_class, SIMD_PREFIXES in H. cbn [existsb JS.startsWith String.prefix] in H.
  repeat match type of H with
         | context [ascii_dec ?a ?b] => destruct (ascii_dec a b); [subst; tauto|]
         end.
  discriminate.
Qed.

(** X6.  A name of the vector class without any decimal digit, other than
    sp, cannot be given an index: with the buffer present the lookup
    answers the marker ?, and without it the marker (No-CModule). *)
Theorem vector_name_without_index (g : Globals) (context : CpuContext)
    (regName : string) :
  simd_class regName = true -> regName <> "sp" ->
  JS.match_digits regName = None ->
  getRegisterValue g context regName =
    Ok (VStr (match simdBuffer g with Some _ => "?" | None => "(No-CModule)" end)).
Proof.
  intros Hclass Hsp Hm.
  destruct (simd_class_head regName Hclass) as (c & r & -> & Hc).
  unfold getRegisterValue. rewrite Hclass.
  destruct (String.eqb_spec (String c r) "sp") as [|_]; [contradiction|].
  assert (Hw : String.eqb (String c r) "wzr" || String.eqb (String c r) "xzr" = false)
    by (destruct Hc as [->|[->|[->|[->| ->]]]]; reflexivity).
  assert (Hs : JS.startsWith (String c r) "w" = false)
    by (destruct Hc as [->|[->|[->|[->| ->]]]]; reflexivity).
  rewrite Hw, Hs. unfold simd_rule. rewrite Hm.
  now destruct (simdBuffer g).
Qed.

Lemma vector_name_without_index_witness :
  simd_class "s" = true /\ "s" <> "sp" /\ JS.match_digits "s" = None /\
  getRegisterValue demo_globals demo_context "s" = Ok (VStr "?").
Proof.
  assert (H1 : simd_class "s" = true) by reflexivity.
  assert (H2 : "s" <> "sp") by discriminate.
  assert (H3 : JS.match_digits "s" = None) by reflexivity.
  split; [exact H1|]. split; [exact H2|]. split; [exact H3|].
  exact (vector_name_without_index demo_globals demo_context "s" H1 H2 H3).
Defined.

Lemma byte_hex_length (b : Byte.byte) : String.length (byte_hex b) = 2%nat.
Proof. destruct b; reflexivity. Qed.

Lemma length_append (a b : string) :
  String.length (a +:+ b) = (String.length a + String.length b)%nat.
Proof.
  induction a as [|c a IH]; [reflexivity|].
  rewrite append_cons. cbn [String.length]. now rewrite IH.
Qed.

Lemma hex_of_bytes_length (bs : list Byte.byte) :
  String.length (hex_of_bytes bs) = (2 * length bs)%nat.
Proof.
  induction bs as [|b r IH]; [reflexivity|].
  cbn [hex_of_bytes length]. rewrite length_append, byte_hex_length, IH. lia.
Qed.

(** X7.  The literal answered for a vector register below 16 always has 34
    characters: 0x and two hexadecimal digits for each of the 16 bytes, a
    byte below 16 being padded with a zero. *)
Theorem vector_literal_width (g : Globals) (context : CpuContext) (buf : SimdBuffer)
    (p : string) (i : Z) :
  In p SIMD_PREFIXES -> 0 <= i < 16 -> simdBuffer g = Some buf ->
  exists hex,
    getRegisterValue g context (p +:+ JS.num_toString i) = Ok (VStr ("0x" +:+ hex)) /\
    String.length hex = 32%nat.
Proof.
  intros Hp Hi Hbuf.
  destruct (num_toString_digits i ltac:(lia)) as (c & r & Hs & Hc & Hr).
  pose proof (parseInt_num_toString i ltac:(lia)) as Hparse.
  rewrite Hs in *.
  destruct (vector_name_rule g context p c r Hp Hc Hr) as [Hg Hm].
  rewrite Hg. unfold simd_rule. rewrite Hbuf, Hm, Hparse.
  destruct (i <? 16) eqn:Hlt; [|apply Z.ltb_ge in Hlt; lia].
  rewrite toHex128_ok by lia.
  eexists. split; [reflexivity|].
  now rewrite hex_of_bytes_length, length_rev, captured_length.
Qed.

Lemma vector_literal_width_witness :
  In "d" SIMD_PREFIXES /\ 0 <= 0 < 16 /\ simdBuffer demo_globals = Some demo_buffer /\
  exists hex,
    getRegisterValue demo_globals demo_context "d0" = Ok (VStr ("0x" +:+ hex)) /\
    String.length hex = 32%nat.
Proof.
  assert (H1 : In "d" SIMD_PREFIXES) by (right; left; reflexivity).
  assert (H2 : 0 <= 0 < 16) by lia.
  split; [exact H1|]. split; [exact H2|]. split; [reflexivity|].
  exact (vector_literal_width demo_globals demo_context demo_buffer "d" 0 H1 H2 eq_refl).
Defined.

(** ** The capture callout *)

(** X8.  The capture callout rewrites every one of the 256 bytes of the
    buffer, byte [o] with byte [o mod 16] of vector register [o / 16], and
    writes nothing beyond them; the registers v16 .. v31 are never copied.
    So nothing of an earlier capture survives a new one. *)
Theorem dump_simd_regs_overwrites (cpu cpu' : CpuContext) (out : SimdBuffer) (o : nat) :
  dump_simd_regs cpu out o =
    (if (o <? 256)%nat then v cpu (o / 16)%nat (o mod 16)%nat else out o) /\
  dump_simd_regs cpu (dump_simd_regs cpu' out) o = dump_simd_regs cpu out o.
Proof.
  assert (H : forall c b, dump_simd_regs c b o =
            if (o <? 256)%nat then v c (o / 16)%nat (o mod 16)%nat else b o).
  { intros c b. unfold dump_simd_regs. rewrite dump_loop_at.
    change ((0 + 16) * 16)%nat with 256%nat. now destruct (o <? 256)%nat. }
  split; [apply H|]. rewrite !H. now destruct (o <? 256)%nat.
Qed.

(** ** [inspectMemory] *)

Lemma forallb_take {A} (f : A -> bool) (l : list A) (n : nat) :
  forallb f l = true -> forallb f (take n l) = true.
Proof.
  revert n. induction l as [|a r IH]; intros [|n] H; try reflexivity.
  cbn in *. apply andb_true_iff in H as [Ha Hr]. now rewrite Ha, IH.
Qed.

(** X9.  [inspectMemory] gives one of three things: the empty annotation;
    the quoted string of the first [n] bytes at the pointer, with [n]
    between 3 and 32 and every one of them printable ASCII; or the
    points-to annotation of the word stored at the pointer, a word that
    passes [isSafePointer].  In the two non-empty cases the pointer itself
    passes [isSafePointer]. *)
Theorem inspectMemory_shape (mem : Memory) (ptrVal : option Z) :
  inspectMemory mem ptrVal = "" \/
  (exists p bs,
     ptrVal = Some p /\ isSafePointer (Some p) = true /\
     read_bytes mem p (length bs) = Some bs /\
     (3 <= length bs <= 32)%nat /\ forallb printable bs = true /\
     inspectMemory mem ptrVal = string_note (string_of_list_byte bs)) \/
  (exists p pointed,
     ptrVal = Some p /\ isSafePointer (Some p) = true /\
     readPointer mem p = Ok pointed /\ isSafePointer (Some pointed) = true /\
     inspectMemory mem ptrVal = pointer_note pointed).
Proof.
  unfold inspectMemory.
  destruct (isSafePointer ptrVal) eqn:Hsafe; cbn [negb]; [|now left].
  destruct ptrVal as [p|]; [|now left].
  rewrite inspect_string_spec.
  assert (Hptr : inspect_pointer mem p = "" \/
                 exists pointed, readPointer mem p = Ok pointed /\
                   isSafePointer (Some pointed) = true /\
                   inspect_pointer mem p = pointer_note pointed).
  { unfold inspect_pointer. destruct (readPointer mem p) as [pointed|]; [|now left].
    destruct (isSafePointer (Some pointed)) eqn:Hq; [|now left].
    right. eauto. }
  destruct (read_bytes mem p 32) as [u8|] eqn:Hr.
  - destruct (forallb printable (until_nul u8)) eqn:Hp; cbn [andb].
    + destruct (2 <? length (until_nul u8))%nat eqn:Hl.
      * right. left. exists p, (until_nul u8).
        apply Nat.ltb_lt in Hl.
        pose proof (until_nul_length u8) as Hle.
        rewrite (read_bytes_length _ _ _ _ Hr) in Hle.
        repeat split; try assumption; try lia.
        rewrite (read_bytes_take mem 32 p u8 _ Hr Hle). f_equal. apply until_nul_take.
      * destruct Hptr as [->|(q & Hq1 & Hq2 & ->)]; [now left|].
        right. right. exists p, q. auto.
    + destruct Hptr as [->|(q & Hq1 & Hq2 & ->)]; [now left|].
      right. right. exists p, q. auto.
  - destruct Hptr as [->|(q & Hq1 & Hq2 & ->)]; [now left|].
    right. right. exists p, q. auto.
Qed.

(** ** [formatOperandDetails] *)




(** X11.  A register operand reads memory only through a register named
    x... or sp that holds a pointer passing [isSafePointer]: for every
    other operand (a w alias, a vector register, an unavailable register,
    a null, small or misaligned value) the annotation is the same whatever
    the memory holds. *)
Theorem format_reg_reads_memory (g : Globals) (mem mem' : Memory)
    (context : CpuContext) (value : string) :
  (forall p, JS.startsWith value "x" || String.eqb value "sp" = true ->
             getRegisterValue g context value = Ok (VPtr p) ->
             isSafePointer (Some p) = false) ->
  format_reg g mem context value = format_reg g mem' context value.
Proof.
  intros H. unfold format_reg.
  destruct (getRegisterValue g context value) as [val|] eqn:Hval; [|reflexivity].
  cbn [mbind completion_bind].
  destruct (JS.startsWith value "x" || String.eqb value "sp") eqn:Hx;
    cbn [andb]; [|reflexivity].
  destruct val as [p| |s]; cbn [typeof_string negb as_pointer]; try reflexivity.
  unfold inspectMemory. now rewrite (H p eq_refl eq_refl).
Qed.

Lemma format_reg_reads_memory_witness :
  format_reg demo_globals page_memory demo_context "w0"
  = format_reg demo_globals no_memory demo_context "w0" /\
  format_reg demo_globals page_memory (demo_regs 0x4000a3c 5) "x0"
  = format_reg demo_globals no_memory (demo_regs 0x4000a3c 5) "x0".
Proof.
  split.
  - apply format_reg_reads_memory. intros p Hx. discriminate Hx.
  - apply format_reg_reads_memory. intros p _ Hv.
    vm_compute in Hv. injection Hv as <-. reflexivity.
Defined.

(** ** Whole activations *)

Lemma hits_at_nonneg (k : string) (hits : list Hit) : 0 <= hits_at k hits.
Proof.
  induction hits as [|hit rest IH]; cbn [hits_at]; [lia|].
  destruct (String.eqb (pcKey_of hit) k); lia.
Qed.

Lemma run_counter_exact (h : Host) (k : string) (hits : list Hit) :
  forall st,
    loopCounter (fst (run_callouts h hits st)) !! k =
      if hits_at k hits =? 0 then loopCounter st !! k
      else Some (default 0 (loopCounter st !! k) + hits_at k hits).
Proof.
  induction hits as [|hit rest IH]; intros st; cbn [run_callouts hits_at fst].
  - reflexivity.
  - pose proof (callout_counter h hit st) as Hc.
    pose proof (hits_at_nonneg k rest) as Hrest.
    destruct (callout_at h hit st) as [[st1 out1] c1]. cbn [fst] in Hc.
    specialize (IH st1). destruct (run_callouts h rest st1) as [st2 out2].
    cbn [fst] in *. rewrite IH, Hc, hit_count_eq.
    destruct (String.eqb_spec (pcKey_of hit) k) as [->|Hne].
    + rewrite lookup_insert_eq. cbn [from_option id].
      destruct (Z.eqb_spec (1 + hits_at k rest) 0) as [E|E]; [lia|].
      destruct (Z.eqb_spec (hits_at k rest) 0) as [E0|E0]; f_equal; lia.
    + rewrite lookup_insert_ne by exact Hne. reflexivity.
Qed.

(** X12.  At any point of an activation the counter map holds exactly the
    program counters hit so far, each with the number of its hits, rendered
    or suppressed; a program counter never hit has no entry, and no entry
    is ever zero. *)
Theorem counters_exact (h : Host) (t : Z) (hits : list Hit) (k : string) :
  loopCounter (fst (run_callouts h hits (onEnter_state t))) !! k =
    if hits_at k hits =? 0 then None else Some (hits_at k hits).
Proof.
  rewrite run_counter_exact. cbn [onEnter_state loopCounter].
  rewrite lookup_empty. reflexivity.
Qed.

Lemma prefix_append (a b : string) : String.prefix a (a +:+ b) = true.
Proof.
  induction a as [|c a IH]; [now destruct b|].
  rewrite append_cons. cbn [String.prefix].
  destruct (ascii_dec c c); [exact IH | congruence].
Qed.

Lemma prefix_refl (a : string) : String.prefix a a = true.
Proof. rewrite <- (append_empty_r a) at 2. apply prefix_append. Qed.

Lemma deferred_lines_order (h : Host) (hits : list Hit) :
  forall pending regs,
    Forall2 (fun line l => String.prefix l line = true)
      (deferred_lines h pending regs hits)
      (match pending with Some l => [l] | None => [] end ++ map (line_of h) hits).
Proof.
  induction hits as [|hit rest IH]; intros pending regs; cbn [deferred_lines map].
  - destruct pending; cbn; repeat constructor. apply prefix_refl.
  - specialize (IH (Some (line_of h hit)) (regs_after hit regs)).
    destruct pending as [l|]; cbn [app] in *; [|exact IH].
    constructor; [apply prefix_append | exact IH].
Qed.

(** X13.  Between its two banners an activation prints exactly one line
    for each gate-passing hit, in the order of the hits, and each of these
    lines begins with the rendering of the instruction of its hit: no
    rendered line is lost, printed twice or printed out of order, and a
    suppressed hit prints nothing. *)
Theorem one_line_per_rendered_hit (h : Host) (t : Z) (hits : list Hit) (retval : Z) :
  exists lines,
    activation h t hits retval = [enter_banner t] ++ lines ++ [leave_banner retval] /\
    Forall2 (fun line hit => String.prefix (line_of h hit) line = true)
      lines (passing ∅ hits).
Proof.
  exists (deferred_lines h None ∅ (passing ∅ hits)). split.
  - unfold activation.
    pose proof (run_deferred h hits (onEnter_state t) (onEnter_pending_ok t)) as H.
    destruct (run_callouts h hits (onEnter_state t)) as [st out].
    destruct H as [_ H]. cbn [onEnter_state lastInstructionLog lastRegs loopCounter] in H.
    unfold onLeave. rewrite <- H, <- !app_assoc. reflexivity.
  - pose proof (deferred_lines_order h (passing ∅ hits) None ∅) as H. cbn [app] in H.
    apply Forall2_fmap_r in H. exact H.
Qed.





Lemma read_bytes_local (mem mem' : Memory) (n : nat) :
  forall p, (forall a, p <= a < p + Z.of_nat n -> mem a = mem' a) ->
            read_bytes mem p n = read_bytes mem' p n.
Proof.
  induction n as [|n IH]; intros p H; [reflexivity|].
  cbn [read_bytes]. rewrite (H p) by lia.
  rewrite (IH (p + 1)) by (intros a Ha; apply H; lia). reflexivity.
Qed.

(** X15.  [inspectMemory] looks at no more than the 32 bytes that start at
    the pointer: two memories that agree on them get the same annotation.
    In particular the word a pointer points to is shown but never followed. *)
Theorem inspectMemory_local (mem mem' : Memory) (p : Z) :
  (forall a, p <= a < p + 32 -> mem a = mem' a) ->
  inspectMemory mem (Some p) = inspectMemory mem' (Some p).
Proof.
  intros H. unfold inspectMemory.
  destruct (isSafePointer (Some p)); cbn [negb]; [|reflexivity].
  rewrite !inspect_string_spec, !inspect_pointer_spec.
  rewrite (read_bytes_local mem mem' 32 p) by (intros a Ha; apply H; lia).
  rewrite (read_bytes_local mem mem' 8 p) by (intros a Ha; apply H; lia).
  reflexivity.
Qed.

(** The page of [page_memory] with the page the stored word points to made
    readable as well. *)
Lemma inspectMemory_local_witness :
  inspectMemory page_memory (Some 0x20fe0)
  = inspectMemory (fun a => if (0x30000 <=? a) && (a <? 0x31000) then Some Byte.x41
                            else page_memory a) (Some 0x20fe0).
Proof.
  apply inspectMemory_local. intros a Ha.
  destruct ((0x30000 <=? a) && (a <? 0x31000)) eqn:E; [|reflexivity].
  apply andb_true_iff in E as [E _]. apply Z.leb_le in E. lia.
Defined.

(** X16.  Capture and rendering compose: with the buffer as the capture
    callout leaves it for a context [cpu], a vector register operand below
    16 is annotated with the bytes 15 down to 0 of that register of [cpu],
    whatever the buffer held before and whatever the memory holds. *)
Theorem captured_vector_operand (c : bool) (cpu context : CpuContext)
    (out : SimdBuffer) (mem : Memory) (p : string) (i : Z) :
  In p SIMD_PREFIXES -> 0 <= i < 16 ->
  format_reg {| cm := c; simdBuffer := Some (dump_simd_regs cpu out) |} mem context
             (p +:+ JS.num_toString i)
  = Ok (C.MAGENTA +:+ (p +:+ JS.num_toString i) +:+ C.RESET +:+ "=0x"
          +:+ hex_of_bytes (rev (map (v cpu (Z.to_nat i)) (seq 0 16)))).
Proof.
  intros Hp Hi.
  set (g := {| cm := c; simdBuffer := Some (dump_simd_regs cpu out) |}).
  destruct (num_toString_digits i ltac:(lia)) as (ch & r & Hs & Hc & Hr).
  pose proof (parseInt_num_toString i ltac:(lia)) as Hparse.
  assert (Hval : getRegisterValue g context (p +:+ JS.num_toString i) =
                 Ok (VStr ("0x" +:+ hex_of_bytes
                                      (rev (map (v cpu (Z.to_nat i)) (seq 0 16)))))).
  { rewrite Hs in *.
    destruct (vector_name_rule g context p ch r Hp Hc Hr) as [Hg Hm].
    rewrite Hg. unfold simd_rule. cbn [simdBuffer g]. rewrite Hm, Hparse.
    destruct (i <? 16) eqn:Hlt; [|apply Z.ltb_ge in Hlt; lia].
    rewrite toHex128_ok by lia. cbn [mbind completion_bind].
    now rewrite dump_simd_regs_captured by lia. }
  unfold format_reg. rewrite Hval. cbn [mbind completion_bind typeof_string negb].
  rewrite andb_false_r. cbn [to_display].
  rewrite append_empty_r.
  change ("=" +:+ "0x" +:+ ?s) with ("=0x" +:+ s). reflexivity.
Qed.

Lemma captured_vector_operand_witness :
  In "q" SIMD_PREFIXES /\ 0 <= 3 < 16 /\
  format_reg {| cm := true; simdBuffer := Some (dump_simd_regs demo_context demo_buffer) |}
             no_memory demo_context "q3"
  = Ok (C.MAGENTA +:+ "q3" +:+ C.RESET +:+ "=0x00000000000000000000000000000000").
Proof.
  assert (H1 : In "q" SIMD_PREFIXES) by (left; reflexivity).
  assert (H2 : 0 <= 3 < 16) by lia.
  split; [exact H1|]. split; [exact H2|].
  exact (captured_vector_operand true demo_context demo_context demo_buffer
           no_memory "q" 3 H1 H2).
Defined.

Lemma run_state (h : Host) (hits : list Hit) :
  forall st,
    lastRegs (fst (run_callouts h hits st))
    = fold_left (fun regs hit => regs_after hit regs)
        (passing (loopCounter st) hits) (lastRegs st) /\
    lastInstructionLog (fst (run_callouts h hits st))
    = match last (passing (loopCounter st) hits) with
      | Some hit => Some (line_of h hit)
      | None => lastInstructionLog st
      end.
Proof.
  induction hits as [|hit rest IH]; intros st; cbn [run_callouts passing fst].
  - split; reflexivity.
  - rewrite <- hit_count_eq.
    destruct (renders (hit_count st (pcKey_of hit))) eqn:Hr.
    + rewrite (callout_rendered h hit st Hr).
      match goal with
      | |- context [run_callouts h rest ?s] =>
          specialize (IH s); destruct (run_callouts h rest s) as [st2 out2]
      end.
      cbn [fst loopCounter lastRegs lastInstructionLog set_lastInstructionLog
           set_lastRegs set_loopCounter fold_left] in *.
      destruct IH as [IH1 IH2]. split; [exact IH1|]. rewrite IH2.
      rewrite last_cons. now destruct (last _).
    + rewrite (callout_suppressed h hit st Hr).
      match goal with
      | |- context [run_callouts h rest ?s] =>
          specialize (IH s); destruct (run_callouts h rest s) as [st2 out2]
      end.
      cbn [fst loopCounter lastRegs lastInstructionLog set_loopCounter] in *.
      exact IH.
Qed.

Lemma fold_regs_after_member (hits : list Hit) :
  forall regs hit, last hits = Some hit ->
    fold_left (fun regs hit => regs_after hit regs) hits regs
    = regs_after hit (fold_left (fun regs hit => regs_after hit regs)
                        (removelast hits) regs).
Proof.
  induction hits as [|a rest IH]; intros regs hit Hl; [discriminate|].
  destruct rest as [|b rest'].
  - cbn in Hl. injection Hl as <-. reflexivity.
  - rewrite last_cons in Hl.
    destruct (last (b :: rest')) as [h0|] eqn:E;
      [|apply last_None in E; discriminate].
    injection Hl as <-.
    change (removelast (a :: b :: rest')) with (a :: removelast (b :: rest')).
    cbn [fold_left]. now apply IH.
Qed.

(** X17.  At any point of an activation the stored state is that of the
    last gate-passing hit, however many suppressed hits followed it: its
    line is the pending line and the map holds the renderings of the eight
    watched registers in its context.  Before the first gate-passing hit
    nothing is pending and the map is empty. *)
Theorem state_of_last_rendered_hit (h : Host) (t : Z) (hits : list Hit) :
  let st := fst (run_callouts h hits (onEnter_state t)) in
  match last (passing ∅ hits) with
  | None => lastInstructionLog st = None /\ lastRegs st = ∅
  | Some hit =>
      lastInstructionLog st = Some (line_of h hit) /\
      forall r val, In r GENERAL_REGS ->
        context_get (hit_context hit) r = Some val ->
        lastRegs st !! r = Some (NativePointer.toString val)
  end.
Proof.
  intros st. destruct (run_state h hits (onEnter_state t)) as [Hregs Hpend].
  fold st in Hregs, Hpend. cbn [onEnter_state loopCounter lastRegs lastInstructionLog] in *.
  destruct (last (passing ∅ hits)) as [hit|] eqn:Hlast.
  - split; [exact Hpend|]. intros r val Hr Hval.
    rewrite Hregs, (fold_regs_after_member _ _ _ Hlast).
    unfold regs_after. rewrite getDiffRegisters_eq. cbn [fst].
    rewrite fold_insert_member by exact Hr. unfold rendering. now rewrite Hval.
  - split; [exact Hpend|]. rewrite Hregs.
    apply last_None in Hlast. now rewrite Hlast.
Qed.
